(** * Ballot session state machine and vote status: a verification development

    The development embeds two pieces of the voting application:

    - [Ballot]: the [BallotContainer] component (sequential per-position
      selection, optimistic locking, background submission with rollback,
      session restore, timed auto-advance and final submission);
    - [VotePage]: [handleVotePosition] of the voting page, which builds the
      row stored for one vote, including its [vote_status].

    React state is a record; each render closes over the state it was
    rendered with, so every timer callback and promise handler carries the
    values its closure captured.  The event loop is a queue of timers with
    deadlines, a list of unsettled submission promises and a clock. *)

From stdpp Require Import gmap strings list fin_maps pretty.
From Stdlib Require Import Floats.

Set Default Proof Using "Type".
Set Warnings "-register-all".

(* ===================================================================== *)
(** * JavaScript values, as far as the code inspects them *)
(* ===================================================================== *)

Module JS.

(** A value as [JSON.parse] can return it, plus [undefined], which a
    property read can produce.  Objects are their own properties; members
    inherited from built-in prototypes are not part of the model (keys are
    field names of the snapshot and database row identifiers). *)
Inductive value :=
| Undefined
| Null
| Bool (b : bool)
| Num (x : float)
| Str (s : string)
| Arr (l : list value)
| Obj (m : gmap string value).

Inductive exn :=
| SyntaxError
| TypeError.

(** Computations that may throw. *)
Definition result (A : Type) : Type := exn + A.

Definition throw {A} (e : exn) : result A := inl e.

#[global] Instance result_ret : MRet result := λ A x, inr x.
#[global] Instance result_bind : MBind result := λ A B f m,
  match m with
  | inl e => inl e
  | inr x => f x
  end.

(** [!x] on a number is true for [0], [-0] and [NaN]. *)
Definition truthy_number (x : float) : bool :=
  negb (PrimFloat.eqb x 0%float) && PrimFloat.eqb x x.

Definition truthy_string (s : string) : bool :=
  negb (String.eqb s EmptyString).

Definition truthy (v : value) : bool :=
  match v with
  | Undefined | Null => false
  | Bool b => b
  | Num x => truthy_number x
  | Str s => truthy_string s
  | Arr _ | Obj _ => true
  end.

(** [a || b] *)
Definition or_else (a b : value) : value :=
  if truthy a then a else b.

Definition number_of_nat (n : nat) : float :=
  PrimFloat.of_uint63 (Uint63.of_Z (Z.of_nat n)).

(** The array index a property name denotes, among the first [len]. *)
Definition array_index (len : nat) (k : string) : option nat :=
  fst <$> list_find (λ i, pretty i = k) (seq 0 len).

(** [v[k]]: reading a property of [undefined] or [null] throws. *)
Definition get (v : value) (k : string) : result value :=
  match v with
  | Undefined | Null => throw TypeError
  | Bool _ | Num _ => mret Undefined
  | Str s =>
      if String.eqb k "length" then mret (Num (number_of_nat (String.length s)))
      else match array_index (String.length s) k ≫= λ i, String.get i s with
           | Some c => mret (Str (String c EmptyString))
           | None => mret Undefined
           end
  | Arr l =>
      if String.eqb k "length" then mret (Num (number_of_nat (length l)))
      else match array_index (length l) k ≫= λ i, l !! i with
           | Some x => mret x
           | None => mret Undefined
           end
  | Obj m =>
      match m !! k with
      | Some x => mret x
      | None => mret Undefined
      end
  end.

(** [Object.keys(v)] *)
Definition keys (v : value) : result (list string) :=
  match v with
  | Undefined | Null => throw TypeError
  | Bool _ | Num _ => mret []
  | Str s => mret (pretty <$> seq 0 (String.length s))
  | Arr l => mret (pretty <$> seq 0 (length l))
  | Obj m => mret (fst <$> map_to_list m)
  end.

Definition as_string (v : value) : option string :=
  match v with
  | Str s => Some s
  | _ => None
  end.

Definition as_bool (v : value) : option bool :=
  match v with
  | Bool b => Some b
  | _ => None
  end.

(** A value seen at the TypeScript type [Record<string, A>]. *)
Definition as_record {A} (f : value → option A) (v : value) : option (gmap string A) :=
  match v with
  | Obj m =>
      if decide (map_Forall (λ _ x, is_Some (f x)) m) then Some (omap f m) else None
  | _ => None
  end.

End JS.

(* ===================================================================== *)
(** * The ballot container *)
(* ===================================================================== *)

Module Ballot.

Record Candidate := {
  cand_id : string;
  cand_name : string;
  cand_email : string;
  cand_photo : option string;
  cand_class : string;
  cand_stream : string
}.

Record Position := {
  pos_id : string;
  pos_title : string;
  pos_description : string;
  pos_candidates : list Candidate
}.

(** The six [useState] cells of [BallotContainer]. *)
Record state := {
  currentPositionIndex : nat;
  selections : gmap string string;
  locked : gmap string bool;
  isExiting : bool;
  showReview : bool;
  showSuccess : bool
}.

Definition initial_state : state :=
  {| currentPositionIndex := 0; selections := ∅; locked := ∅;
     isExiting := false; showReview := false; showSuccess := false |}.

Definition setCurrentPositionIndex (f : nat → nat) (s : state) : state :=
  {| currentPositionIndex := f (currentPositionIndex s);
     selections := selections s; locked := locked s;
     isExiting := isExiting s; showReview := showReview s;
     showSuccess := showSuccess s |}.

Definition setSelections (v : gmap string string) (s : state) : state :=
  {| currentPositionIndex := currentPositionIndex s;
     selections := v; locked := locked s;
     isExiting := isExiting s; showReview := showReview s;
     showSuccess := showSuccess s |}.

Definition setLocked (v : gmap string bool) (s : state) : state :=
  {| currentPositionIndex := currentPositionIndex s;
     selections := selections s; locked := v;
     isExiting := isExiting s; showReview := showReview s;
     showSuccess := showSuccess s |}.

Definition setIsExiting (b : bool) (s : state) : state :=
  {| currentPositionIndex := currentPositionIndex s;
     selections := selections s; locked := locked s;
     isExiting := b; showReview := showReview s;
     showSuccess := showSuccess s |}.

Definition setShowReview (b : bool) (s : state) : state :=
  {| currentPositionIndex := currentPositionIndex s;
     selections := selections s; locked := locked s;
     isExiting := isExiting s; showReview := b;
     showSuccess := showSuccess s |}.

Definition setShowSuccess (b : bool) (s : state) : state :=
  {| currentPositionIndex := currentPositionIndex s;
     selections := selections s; locked := locked s;
     isExiting := isExiting s; showReview := showReview s;
     showSuccess := b |}.

(** [locked[id]] used as a condition: absent and [false] are both falsy. *)
Definition is_locked (lk : gmap string bool) (id : string) : bool :=
  default false (lk !! id).

(** ** Pending continuations

    A timer callback is the closure of the render that created it: the
    1500 ms callback of [handleSelectCandidate] holds that render's
    [currentPositionIndex] and, through that render's [handleFinalSubmit],
    that render's [selections]. *)
Inductive timer :=
| AutoAdvance (capturedIndex : nat) (capturedSelections : gmap string string)
| AdvanceDone
| AutoSubmit (capturedSelections : gmap string string)
| Complete (capturedSelections : gmap string string).

(** An [onVotePosition] promise that has not settled, with what its
    [.catch] handler closed over. *)
Record vote_call := {
  vc_position : string;
  vc_candidate : string;
  vc_selections : gmap string string;
  vc_locked : gmap string bool
}.

(** Calls that leave the component.  [CreateConfetti] stands for the whole
    of [createConfetti], which only adds and removes decorative DOM nodes;
    [SetVoteSubmitted] is [sessionStorage.setItem('voteSubmitted', 'true')]. *)
Inductive effect :=
| OnVotePosition (positionId candidateId : string)
| ConsoleError
| Alert (message : string)
| CreateConfetti
| SetVoteSubmitted
| OnVoteComplete (votes : gmap string string).

Record world := {
  st : state;
  clock : nat;
  timers : list (nat * timer);
  calls : list vote_call;
  trace : list effect
}.

Definition with_state (f : state → state) (w : world) : world :=
  {| st := f (st w); clock := clock w; timers := timers w;
     calls := calls w; trace := trace w |}.

Definition emit (e : effect) (w : world) : world :=
  {| st := st w; clock := clock w; timers := timers w;
     calls := calls w; trace := trace w ++ [e] |}.

(** The timer queue is kept in firing order: by deadline, and among equal
    deadlines by registration. *)
Fixpoint enqueue (due : nat) (t : timer) (q : list (nat * timer)) : list (nat * timer) :=
  match q with
  | [] => [(due, t)]
  | (d, t') :: q' =>
      if d <=? due then (d, t') :: enqueue due t q' else (due, t) :: q
  end.

Definition setTimeout (t : timer) (delay : nat) (w : world) : world :=
  {| st := st w; clock := clock w;
     timers := enqueue (clock w + delay) t (timers w);
     calls := calls w; trace := trace w |}.

Definition call_onVotePosition (c : vote_call) (w : world) : world :=
  {| st := st w; clock := clock w; timers := timers w;
     calls := calls w ++ [c];
     trace := trace w ++ [OnVotePosition (vc_position c) (vc_candidate c)] |}.

Inductive outcome :=
| Resolved
| Rejected (message : option string).

(** What the event loop can deliver: a click on a candidate of the ballot on
    screen, the settlement of the [n]-th pending submission, time passing
    with no timer becoming overdue, and the earliest timer running.

    The events are those of a session whose [positions] array stays the same
    object, as on the voting page, which passes its state cell: the restore
    effect, whose dependency is that array, then runs once, at mount.  A
    parent that passes a new array at a render runs the effect again; that
    is not one of the events. *)
Inductive event :=
| Click (candidateId : string)
| Settle (n : nat) (o : outcome)
| Wait (ms : nat)
| Fire.

Section Session.

Variable positions : list Position.

Definition totalPositions : nat := length positions.

Definition currentPosition (s : state) : option Position :=
  positions !! currentPositionIndex s.

(** The position ballot is on screen, so its candidates can be clicked. *)
Definition ballot_rendered (s : state) : option Position :=
  if showSuccess s then None
  else if showReview s then None
  else currentPosition s.

Definition handleSelectCandidate (p : Position) (candidateId : string) (w : world) : world :=
  let s := st w in
  if is_locked (locked s) (pos_id p) then w
  else
    let newSelections := <[pos_id p := candidateId]> (selections s) in
    let newLocked := <[pos_id p := true]> (locked s) in
    setTimeout (AutoAdvance (currentPositionIndex s) (selections s)) 1500
      (call_onVotePosition
         {| vc_position := pos_id p; vc_candidate := candidateId;
            vc_selections := selections s; vc_locked := locked s |}
         (with_state (setLocked newLocked)
            (with_state (setSelections newSelections) w))).

(** [error.message || 'Unknown error'] inside the alert text. *)
Definition alert_text (message : option string) : string :=
  let m := match message with
           | Some s => if JS.truthy_string s then s else "Unknown error"
           | None => "Unknown error"
           end in
  "Failed to record vote: " +:+ m +:+ ". Please try again.".

(** The [.catch] handler of one submission. *)
Definition on_reject (c : vote_call) (message : option string) (w : world) : world :=
  emit (Alert (alert_text message))
    (with_state (setSelections (vc_selections c))
       (with_state (setLocked (<[vc_position c := false]> (vc_locked c)))
          (emit ConsoleError w))).

Definition advanceToNext (w : world) : world :=
  setTimeout AdvanceDone 400 (with_state (setIsExiting true) w).

Definition handleFinalSubmit (capturedSelections : gmap string string) (w : world) : world :=
  setTimeout (Complete capturedSelections) 2000
    (with_state (setShowSuccess true) (emit CreateConfetti w)).

(** What a timer callback does when it runs.  In the test of the 1500 ms
    callback, [totalPositions - 1] is [-1] in the source when there is no
    position and [0] here; the comparison with an index is false either way. *)
Definition run_timer (t : timer) (w : world) : world :=
  match t with
  | AutoAdvance i sel =>
      if i <? totalPositions - 1 then advanceToNext w
      else setTimeout (AutoSubmit sel) 800 w
  | AdvanceDone =>
      with_state (setIsExiting false) (with_state (setCurrentPositionIndex S) w)
  | AutoSubmit sel => handleFinalSubmit sel w
  | Complete sel => emit (OnVoteComplete sel) (emit SetVoteSubmitted w)
  end.

(** One turn of the event loop; [None] when the event cannot happen in [w]:
    a click with no ballot on screen, a promise that is not pending, a wait
    that would pass a timer's deadline, a timer when none is pending. *)
Definition step (w : world) (e : event) : option world :=
  match e with
  | Click candidateId =>
      p ← ballot_rendered (st w);
      Some (handleSelectCandidate p candidateId w)
  | Settle n o =>
      c ← calls w !! n;
      let w' := {| st := st w; clock := clock w; timers := timers w;
                   calls := delete n (calls w); trace := trace w |} in
      match o with
      | Resolved => Some w'
      | Rejected message => Some (on_reject c message w')
      end
  | Wait ms =>
      match timers w with
      | (d, _) :: _ =>
          if clock w + ms <=? d
          then Some {| st := st w; clock := clock w + ms; timers := timers w;
                       calls := calls w; trace := trace w |}
          else None
      | [] => Some {| st := st w; clock := clock w + ms; timers := timers w;
                      calls := calls w; trace := trace w |}
      end
  | Fire =>
      match timers w with
      | (d, t) :: q =>
          Some (run_timer t {| st := st w; clock := clock w `max` d; timers := q;
                               calls := calls w; trace := trace w |})
      | [] => None
      end
  end.

Fixpoint run (w : world) (es : list event) : option world :=
  match es with
  | [] => Some w
  | e :: es' => w' ← step w e; run w' es'
  end.

End Session.

Definition mount (s : state) : world :=
  {| st := s; clock := 0; timers := []; calls := []; trace := [] |}.

(** ** Session restore: the first [useEffect]

    The effect body calls state setters and may throw part-way; a setter
    that was called stays called.  [effectful] threads the list of setter
    calls made so far through a computation that may throw. *)
Inductive command :=
| SetSelections (v : JS.value)
| SetLocked (v : JS.value)
| SetCurrentPositionIndex (i : nat)
| SetShowReview (b : bool)
| LogRestoreFailure (e : JS.exn).

Definition effectful (A : Type) : Type :=
  list command → list command * JS.result A.

#[global] Instance effectful_ret : MRet effectful := λ A x log, (log, inr x).
#[global] Instance effectful_bind : MBind effectful := λ A B f m log,
  match m log with
  | (log', inl e) => (log', inl e)
  | (log', inr x) => f x log'
  end.

Definition lift {A} (r : JS.result A) : effectful A := λ log, (log, r).

Definition call (c : command) : effectful unit := λ log, (log ++ [c], inr tt).

Definition try_catch (body : effectful unit) (handler : JS.exn → effectful unit)
  : effectful unit := λ log,
  match body log with
  | (log', inl e) => handler e log'
  | (log', inr x) => (log', inr x)
  end.

(** [l.findIndex(f)], counting from [i]; [None] stands for [-1]. *)
Fixpoint findIndex_from (f : Position → JS.result bool) (l : list Position) (i : nat)
  : JS.result (option nat) :=
  match l with
  | [] => mret None
  | p :: l' =>
      b ← f p;
      if b : bool then mret (Some i) else findIndex_from f l' (S i)
  end.

Definition findIndex (f : Position → JS.result bool) (l : list Position)
  : JS.result (option nat) :=
  findIndex_from f l 0.

Section Restore.

Variable JSON_parse : string → JS.result JS.value.
Variable positions : list Position.

(** [pos => !data.selections[pos.id]] *)
Definition lacks_selection (data : JS.value) (pos : Position) : JS.result bool :=
  sel ← JS.get data "selections";
  v ← JS.get sel (pos_id pos);
  mret (negb (JS.truthy v)).

Definition restore_body (savedData : string) : effectful unit :=
  data ← lift (JSON_parse savedData);
  sel ← lift (JS.get data "selections");
  call (SetSelections (JS.or_else sel (JS.Obj ∅)));;
  lk ← lift (JS.get data "locked");
  call (SetLocked (JS.or_else lk (JS.Obj ∅)));;
  unvotedIndex ← lift (findIndex (lacks_selection data) positions);
  match unvotedIndex with
  | Some i => call (SetCurrentPositionIndex i)
  | None =>
      ks ← lift (sel' ← JS.get data "selections"; JS.keys sel');
      if length ks =? length positions then call (SetShowReview true)
      else mret tt
  end.

(** [savedData] is what [sessionStorage.getItem('ballotData')] returned. *)
Definition restore_effect (savedData : option string) : effectful unit :=
  match savedData with
  | Some s =>
      if JS.truthy_string s
      then try_catch (restore_body s) (λ e, call (LogRestoreFailure e))
      else mret tt
  | None => mret tt
  end.

(** A setter call applied to the typed state; defined when the payload
    has the type the state cell is declared with. *)
Definition apply_command (s : state) (c : command) : option state :=
  match c with
  | SetSelections v => m ← JS.as_record JS.as_string v; Some (setSelections m s)
  | SetLocked v => m ← JS.as_record JS.as_bool v; Some (setLocked m s)
  | SetCurrentPositionIndex i => Some (setCurrentPositionIndex (λ _, i) s)
  | SetShowReview b => Some (setShowReview b s)
  | LogRestoreFailure _ => Some s
  end.

Fixpoint apply_commands (s : state) (cs : list command) : option state :=
  match cs with
  | [] => Some s
  | c :: cs' => s' ← apply_command s c; apply_commands s' cs'
  end.

(** The state the first render after the effect sees. *)
Definition restored_state (savedData : option string) : option state :=
  match restore_effect savedData [] with
  | (cs, inr _) => apply_commands initial_state cs
  | (_, inl _) => None
  end.

End Restore.

(** The object [{ selections, locked }] with the two maps as JavaScript
    objects. *)
Definition snapshot_value (sel : gmap string string) (lk : gmap string bool) : JS.value :=
  JS.Obj (<["selections" := JS.Obj (JS.Str <$> sel)]>
            (<["locked" := JS.Obj (JS.Bool <$> lk)]> ∅)).

(** The second [useEffect]: the value handed to [JSON.stringify] and stored
    under ['ballotData'] after every change of either map. *)
Definition saved_snapshot (s : state) : JS.value :=
  snapshot_value (selections s) (locked s).

End Ballot.

(* ===================================================================== *)
(** * The voting page: one vote's row *)
(* ===================================================================== *)

Module VotePage.

Import Ballot.

Record LocationInfo := {
  latitude : option float;
  longitude : option float;
  accuracy : option float
}.

(** [!c] for [c : number | null] *)
Definition not_coordinate (c : option float) : bool :=
  match c with
  | None => true
  | Some x => negb (JS.truthy_number x)
  end.

Definition voteStatus (locationDenied : bool) (locationInfo : LocationInfo) : string :=
  if locationDenied
     || (not_coordinate (latitude locationInfo) && not_coordinate (longitude locationInfo))
  then "invalid" else "valid".

(** The columns of the inserted row that identify the vote and locate it;
    the device, fingerprint and behaviour columns are copied from component
    state unchanged and are left out. *)
Record vote_row := {
  voter_id : string;
  voter_name : string;
  candidate_id : string;
  candidate_name : string;
  position : string;
  vote_status : string;
  row_latitude : option float;
  row_longitude : option float;
  location_accuracy : option float
}.

Record student := { student_name : string }.

Section Page.

Variable user_id : option string.
Variable studentData : option student.
Variable positions : list Position.
Variable locationDenied : bool.
Variable locationInfo : LocationInfo.

Definition authenticated : option (string * student) :=
  uid ← user_id;
  sd ← studentData;
  if JS.truthy_string uid then Some (uid, sd) else None.

(** The row [handleVotePosition] passes to [insert], or the message of the
    error it throws before reaching the insert. *)
Definition handleVotePosition (positionId candidateId : string) : string + vote_row :=
  match authenticated with
  | None => inl "User not authenticated"
  | Some (uid, sd) =>
      match
        p ← snd <$> list_find (λ p, pos_id p = positionId) positions;
        c ← snd <$> list_find (λ c, cand_id c = candidateId) (pos_candidates p);
        Some (p, c)
      with
      | None => inl "Invalid position or candidate"
      | Some (p, c) =>
          inr {| voter_id := uid;
                 voter_name := student_name sd;
                 candidate_id := candidateId;
                 candidate_name := cand_name c;
                 position := pos_title p;
                 vote_status := voteStatus locationDenied locationInfo;
                 row_latitude := latitude locationInfo;
                 row_longitude := longitude locationInfo;
                 location_accuracy := accuracy locationInfo |}
      end
  end.

End Page.

End VotePage.

(* ===================================================================== *)
(** * Concrete sessions *)
(* ===================================================================== *)

Module Scenario.

Import Ballot.

Definition candidate (id : string) : Candidate :=
  {| cand_id := id; cand_name := id; cand_email := id +:+ "@school.example";
     cand_photo := None; cand_class := "S4"; cand_stream := "East" |}.

Definition position_of (id a b : string) : Position :=
  {| pos_id := id; pos_title := id; pos_description := EmptyString;
     pos_candidates := [candidate a; candidate b] |}.

Definition one_position : list Position :=
  [position_of "pos0" "A" "B"].

Definition two_positions : list Position :=
  [position_of "pos0" "A" "B"; position_of "pos1" "C" "D"].

Definition three_positions : list Position :=
  [position_of "pos0" "A" "B"; position_of "pos1" "C" "D";
   position_of "pos2" "E" "F"].

(** Three positions voted in order, every submission still unsettled. *)
Definition vote_all_three : list event :=
  [Click "A"; Wait 1500; Fire; Fire;
   Click "C"; Wait 1500; Fire; Fire;
   Click "E"; Wait 1500; Fire; Wait 800; Fire; Wait 2000; Fire].

(** Position 0 voted, the ballot advanced, position 1 voted. *)
Definition vote_two_of_three : list event :=
  [Click "A"; Wait 1500; Fire; Wait 400; Fire; Wait 900; Click "C"].

(** Position 0 voted, the ballot advanced to the last position, and then
    the submission for position 0 failed. *)
Definition first_vote_fails_late : list event :=
  [Click "A"; Wait 1500; Fire; Wait 400; Fire;
   Settle 0 (Rejected (Some "network error"))].

(** Position 0 voted, its submission fails at once, position 0 voted again,
    and then the four pending timers run. *)
Definition revote_after_early_failure : list event :=
  [Click "A"; Wait 100; Settle 0 (Rejected (Some "network error"));
   Wait 100; Click "B"; Fire; Fire; Fire; Fire].

(** The world a fresh session is in after [es]. *)
Definition after (positions : list Position) (es : list event) : world :=
  default (mount initial_state) (run positions (mount initial_state) es).

(** A stand-in for [JSON.parse] on a few stored strings: anything that is
    not listed fails to parse. *)
Definition parse_table (table : list (string * JS.value)) (s : string)
  : JS.result JS.value :=
  match snd <$> list_find (λ kv, fst kv = s) table with
  | Some (_, v) => inr v
  | None => inl JS.SyntaxError
  end.

Definition quoted (s : string) : string :=
  let dq := String (Ascii.ascii_of_nat 34) EmptyString in
  dq +:+ s +:+ dq.

(** The text the save effect stores once positions 0 and 1 are voted. *)
Definition stored_two_of_three : string :=
  "{" +:+ quoted "selections" +:+ ":{"
      +:+ quoted "pos0" +:+ ":" +:+ quoted "A" +:+ ","
      +:+ quoted "pos1" +:+ ":" +:+ quoted "C" +:+ "},"
      +:+ quoted "locked" +:+ ":{"
      +:+ quoted "pos0" +:+ ":true," +:+ quoted "pos1" +:+ ":true}}".

Definition snapshot_two_of_three : JS.value :=
  snapshot_value {[ "pos0" := "A"; "pos1" := "C" ]}
                 {[ "pos0" := true; "pos1" := true ]}.

(** A snapshot saved while the ballot had a second position, [pos9], that
    is no longer on the ballot when the page is reloaded. *)
Definition stored_with_retired_position : string :=
  "{" +:+ quoted "selections" +:+ ":{"
      +:+ quoted "pos0" +:+ ":" +:+ quoted "A" +:+ ","
      +:+ quoted "pos9" +:+ ":" +:+ quoted "Z" +:+ "},"
      +:+ quoted "locked" +:+ ":{"
      +:+ quoted "pos0" +:+ ":true," +:+ quoted "pos9" +:+ ":true}}".

Definition selections_with_retired_position : gmap string string :=
  {[ "pos0" := "A"; "pos9" := "Z" ]}.

Definition snapshot_with_retired_position : JS.value :=
  snapshot_value selections_with_retired_position
                 {[ "pos0" := true; "pos9" := true ]}.

(** A stored object with a lock map and no [selections] field. *)
Definition stored_locks_only : string :=
  "{" +:+ quoted "locked" +:+ ":{" +:+ quoted "pos0" +:+ ":true}}".

Definition value_locks_only : JS.value :=
  JS.Obj {[ "locked" := JS.Obj {[ "pos0" := JS.Bool true ]} ]}.

(** The snapshot of a session in which all three positions are voted. *)
Definition stored_all_three : string :=
  "{" +:+ quoted "selections" +:+ ":{"
      +:+ quoted "pos0" +:+ ":" +:+ quoted "A" +:+ ","
      +:+ quoted "pos1" +:+ ":" +:+ quoted "C" +:+ ","
      +:+ quoted "pos2" +:+ ":" +:+ quoted "E" +:+ "},"
      +:+ quoted "locked" +:+ ":{"
      +:+ quoted "pos0" +:+ ":true," +:+ quoted "pos1" +:+ ":true,"
      +:+ quoted "pos2" +:+ ":true}}".

Definition snapshot_all_three : JS.value :=
  snapshot_value {[ "pos0" := "A"; "pos1" := "C"; "pos2" := "E" ]}
                 {[ "pos0" := true; "pos1" := true; "pos2" := true ]}.

Definition stored_parse : string → JS.result JS.value :=
  parse_table [(stored_two_of_three, snapshot_two_of_three);
               (stored_all_three, snapshot_all_three);
               (stored_with_retired_position, snapshot_with_retired_position);
               (stored_locks_only, value_locks_only)].

(** A stored text cut off in the middle. *)
Definition stored_truncated : string :=
  "{" +:+ quoted "selections" +:+ ":{" +:+ quoted "pos0".

(** A signed-in voter whose device reports the coordinates (0, 0). *)
Definition voter : VotePage.student :=
  {| VotePage.student_name := "Voter One" |}.

Definition located_at_origin : VotePage.LocationInfo :=
  {| VotePage.latitude := Some 0%float;
     VotePage.longitude := Some 0%float;
     VotePage.accuracy := Some 12%float |}.

End Scenario.

(* ===================================================================== *)
(** * Vocabulary of the properties *)
(* ===================================================================== *)

Module BallotSpec.

Import Ballot.

(** Every recorded selection is locked. *)
Definition consistent (sel : gmap string string) (lk : gmap string bool) : Prop :=
  map_Forall (λ k _, lk !! k = Some true) sel.

(** What a pending rollback would restore is itself consistent and holds no
    selection for the position it belongs to. *)
Definition call_ok (c : vote_call) : Prop :=
  consistent (vc_selections c) (vc_locked c)
  ∧ vc_selections c !! vc_position c = None.

Definition lock_invariant (w : world) : Prop :=
  consistent (selections (st w)) (locked (st w)) ∧ Forall call_ok (calls w).

(** A pending timer that still stands for one accepted selection. *)
Definition owes (t : timer) : nat :=
  match t with
  | Complete _ => 0
  | _ => 1
  end.

Fixpoint owed (q : list (nat * timer)) : nat :=
  match q with
  | [] => 0
  | (_, t) :: q' => owes t + owed q'
  end.

(** Accepted selections: one submission call each. *)
Fixpoint accepted (tr : list effect) : nat :=
  match tr with
  | [] => 0
  | OnVotePosition _ _ :: tr' => S (accepted tr')
  | _ :: tr' => accepted tr'
  end.

(** Runs of [handleFinalSubmit]. *)
Fixpoint final_submits (tr : list effect) : nat :=
  match tr with
  | [] => 0
  | CreateConfetti :: tr' => S (final_submits tr')
  | _ :: tr' => final_submits tr'
  end.

(** Every accepted selection is accounted for exactly once: by a pending
    timer, by one increment of the index, or by one final submission. *)
Definition accounted (i0 : nat) (w : world) : Prop :=
  currentPositionIndex (st w) + owed (timers w) + final_submits (trace w)
  = i0 + accepted (trace w).

(** The arguments of the completion callback, in order. *)
Definition completions (tr : list effect) : list (gmap string string) :=
  omap (λ e, match e with OnVoteComplete v => Some v | _ => None end) tr.

(** The test [!data.selections[pos.id]] of the restore effect, read on a
    typed selection map. *)
Definition unselected (sel : gmap string string) (p : Position) : bool :=
  match sel !! pos_id p with
  | Some c => negb (JS.truthy_string c)
  | None => true
  end.

(** The snapshot holds a selection for the position. *)
Definition selected (sel : gmap string string) (p : Position) : Prop :=
  ∃ c, sel !! pos_id p = Some c ∧ c ≠ EmptyString.

End BallotSpec.

(* ===================================================================== *)
(** * Further vocabulary for the ballot container *)
(* ===================================================================== *)

Module BallotCounts.

Import Ballot.

(** Clicks among the events delivered. *)
Fixpoint clicks (es : list event) : nat :=
  match es with
  | [] => 0
  | Click _ :: es' => S (clicks es')
  | _ :: es' => clicks es'
  end.

(** Writes of the completion marker. *)
Fixpoint marks (tr : list effect) : nat :=
  match tr with
  | [] => 0
  | SetVoteSubmitted :: tr' => S (marks tr')
  | _ :: tr' => marks tr'
  end.

(** Pending 2000 ms callbacks of [handleFinalSubmit]. *)
Fixpoint completing (q : list (nat * timer)) : nat :=
  match q with
  | [] => 0
  | (_, Complete _) :: q' => S (completing q')
  | _ :: q' => completing q'
  end.

(** Every key of the map is the id of a position of the ballot. *)
Definition on_ballot {A} (positions : list Position) (m : gmap string A) : Prop :=
  ∀ k, is_Some (m !! k) → ∃ p, p ∈ positions ∧ pos_id p = k.

Definition call_on_ballot (positions : list Position) (c : vote_call) : Prop :=
  on_ballot positions (vc_selections c)
  ∧ on_ballot positions (vc_locked c)
  ∧ ∃ p, p ∈ positions ∧ pos_id p = vc_position c.

Definition world_on_ballot (positions : list Position) (w : world) : Prop :=
  on_ballot positions (selections (st w))
  ∧ on_ballot positions (locked (st w))
  ∧ Forall (call_on_ballot positions) (calls w).

End BallotCounts.

(* ===================================================================== *)
(** * Rows read from the backend *)
(* ===================================================================== *)

Module Rows.

Import Ballot.

(** A row of [electoral_positions], as far as the pages read it; [id] and
    [title] are read with a non-null assertion. *)
Record position_row := {
  row_id : string;
  row_title : string;
  row_description : option string
}.

(** A row of [electoral_applications], as far as the pages read it. *)
Record application_row := {
  app_id : string;
  student_name : string;
  student_email : string;
  student_photo : option string;
  class_name : string;
  stream_name : string;
  app_position : option string
}.

(** The candidate both pages build from an application. *)
Definition candidate_of (app : application_row) : Candidate :=
  {| cand_id := app_id app;
     cand_name := student_name app;
     cand_email := student_email app;
     cand_photo := student_photo app;
     cand_class := class_name app;
     cand_stream := stream_name app |}.

(** [x || fallback] for [x : string | null] *)
Definition string_or (x : option string) (fallback : string) : string :=
  match x with
  | Some s => if JS.truthy_string s then s else fallback
  | None => fallback
  end.

End Rows.

(* ===================================================================== *)
(** * The voting page: loading the ballot, location, leaving *)
(* ===================================================================== *)

Module VoteLoad.

Import Ballot Rows.

(** One position of the ballot: the candidates are the confirmed
    applications whose [position] is the row's id, in query order. *)
Definition position_with_candidates (candidatesData : option (list application_row))
    (pos : position_row) : Position :=
  {| pos_id := row_id pos;
     pos_title := row_title pos;
     pos_description := string_or (row_description pos) EmptyString;
     pos_candidates :=
       candidate_of <$> filter (λ app, app_position app = Some (row_id pos))
                          (default [] candidatesData) |}.

(** [positionsWithCandidates] of [loadVotingData]: what the page hands to
    the ballot container. *)
Definition positionsWithCandidates (positionsData : option (list position_row))
    (candidatesData : option (list application_row)) : list Position :=
  filter (λ pos, 0 < length (pos_candidates pos))
    (position_with_candidates candidatesData <$> default [] positionsData).

(** The three location cells of the page. *)
Record location_state := {
  locationInfo : VotePage.LocationInfo;
  locationDenied : bool;
  showLocationWarning : bool
}.

Definition initial_location : location_state :=
  {| locationInfo := {| VotePage.latitude := None; VotePage.longitude := None;
                        VotePage.accuracy := None |};
     locationDenied := false;
     showLocationWarning := false |}.

(** What reaches the location cells: a success callback of
    [getCurrentPosition] or [watchPosition] with the reported coordinates,
    an error callback of either, and the button that closes the warning. *)
Inductive location_event :=
| Located (latitude longitude accuracy : float)
| LocationError
| DismissWarning.

Definition location_step (s : location_state) (e : location_event) : location_state :=
  match e with
  | Located lat lon acc =>
      {| locationInfo := {| VotePage.latitude := Some lat; VotePage.longitude := Some lon;
                            VotePage.accuracy := Some acc |};
         locationDenied := false;
         showLocationWarning := false |}
  | LocationError =>
      {| locationInfo := locationInfo s;
         locationDenied := true;
         showLocationWarning := true |}
  | DismissWarning =>
      {| locationInfo := locationInfo s;
         locationDenied := locationDenied s;
         showLocationWarning := false |}
  end.

Definition location_after (es : list location_event) : location_state :=
  foldl location_step initial_location es.

(** The status a vote cast in state [s] is stored with. *)
Definition status_in (s : location_state) : string :=
  VotePage.voteStatus (locationDenied s) (locationInfo s).

(** The last geolocation callback among the events, if any. *)
Fixpoint last_callback (es : list location_event) : option location_event :=
  match es with
  | [] => None
  | e :: es' =>
      match last_callback es' with
      | Some e' => Some e'
      | None => match e with
                | DismissWarning => None
                | _ => Some e
                end
      end
  end.

(** [handleBeforeUnload]: the text of the leave warning, or [None] when the
    page lets the user go.  The arguments are what [sessionStorage.getItem]
    returns for ['ballotData'] and ['voteSubmitted']. *)
Definition handleBeforeUnload (ballotData voteSubmitted : option string) : option string :=
  if JS.truthy_string (default EmptyString ballotData)
     && negb (bool_decide (voteSubmitted = Some "true"))
  then Some ("You have not completed voting yet. Your vote will not be recorded, "
             +:+ "but your selections will be restored if you return to this page.")
  else None.

(** The session storage of the tab while the ballot container is mounted in
    world [w], given what it held before: the save effect has stored the
    current snapshot under ['ballotData'], and every run of the completion
    timer has stored ['true'] under ['voteSubmitted']. *)
Definition sessionStorage_of (JSON_stringify : JS.value → string)
    (before : gmap string string) (w : world) : gmap string string :=
  let saved := <["ballotData" := JSON_stringify (saved_snapshot (st w))]> before in
  if 0 <? BallotCounts.marks (trace w) then <["voteSubmitted" := "true"]> saved
  else saved.

End VoteLoad.

(* ===================================================================== *)
(** * The ballot generation page *)
(* ===================================================================== *)

Module BallotAdmin.

Import Ballot Rows.

(** [app.position || 'Unknown Position'] *)
Definition positionTitle (app : application_row) : string :=
  string_or (app_position app) "Unknown Position".

(** The [Map] from title to candidates, as its entries in insertion order;
    [map_push] is [if (!map.has(k)) map.set(k, []); map.get(k).push(c)]. *)
Fixpoint map_push (k : string) (c : Candidate) (m : list (string * list Candidate))
  : list (string * list Candidate) :=
  match m with
  | [] => [(k, [c])]
  | (k', cs) :: m' =>
      if decide (k' = k) then (k', cs ++ [c]) :: m' else (k', cs) :: map_push k c m'
  end.

Definition positionsMap (candidatesData : list application_row)
  : list (string * list Candidate) :=
  foldl (λ m app, map_push (positionTitle app) (candidate_of app) m) [] candidatesData.

Definition code (c : Ascii.ascii) : nat := Ascii.nat_of_ascii c.

Definition underscore : Ascii.ascii := Ascii.ascii_of_nat 95.
Definition space : Ascii.ascii := Ascii.ascii_of_nat 32.

Definition is_lower (c : Ascii.ascii) : bool := (97 <=? code c) && (code c <=? 122).
Definition is_upper (c : Ascii.ascii) : bool := (65 <=? code c) && (code c <=? 90).
Definition is_digit (c : Ascii.ascii) : bool := (48 <=? code c) && (code c <=? 57).

(** [[a-z0-9]] and [\w] *)
Definition is_slug_char (c : Ascii.ascii) : bool := is_lower c || is_digit c.
Definition is_word_char (c : Ascii.ascii) : bool :=
  is_lower c || is_upper c || is_digit c || (code c =? 95).

Definition lower_char (c : Ascii.ascii) : Ascii.ascii :=
  if is_upper c then Ascii.ascii_of_nat (code c + 32) else c.
Definition upper_char (c : Ascii.ascii) : Ascii.ascii :=
  if is_lower c then Ascii.ascii_of_nat (code c - 32) else c.

(** [s.toLowerCase()] on a title written in ASCII. *)
Fixpoint toLowerCase (s : string) : string :=
  match s with
  | EmptyString => EmptyString
  | String c s' => String (lower_char c) (toLowerCase s')
  end.

(** [s.replace(/[^a-z0-9]+/g, '_')]: every maximal run of other characters
    becomes one underscore; [in_run] says the previous character was one. *)
Fixpoint replace_runs (in_run : bool) (s : string) : string :=
  match s with
  | EmptyString => EmptyString
  | String c s' =>
      if is_slug_char c then String c (replace_runs false s')
      else if in_run then replace_runs true s'
      else String underscore (replace_runs true s')
  end.

(** The [id] of a position: [title.toLowerCase().replace(/[^a-z0-9]+/g, '_')] *)
Definition position_id (title : string) : string :=
  replace_runs false (toLowerCase title).

(** [s.replace(/_/g, ' ')] *)
Fixpoint underscores_to_spaces (s : string) : string :=
  match s with
  | EmptyString => EmptyString
  | String c s' =>
      String (if code c =? 95 then space else c) (underscores_to_spaces s')
  end.

(** [s.replace(/\b\w/g, l => l.toUpperCase())]: a word character is
    replaced when the character before it is not one; [after_word] says the
    previous character was a word character. *)
Fixpoint capitalize_words (after_word : bool) (s : string) : string :=
  match s with
  | EmptyString => EmptyString
  | String c s' =>
      if is_word_char c
      then String (if after_word then c else upper_char c) (capitalize_words true s')
      else String c (capitalize_words false s')
  end.

Definition display_title (title : string) : string :=
  capitalize_words false (underscores_to_spaces title).

(** [positionsWithCandidates] of [fetchApprovedCandidates]. *)
Definition positionsWithCandidates (candidatesData : list application_row) : list Position :=
  (λ entry, {| pos_id := position_id (fst entry);
               pos_title := display_title (fst entry);
               pos_description := EmptyString;
               pos_candidates := snd entry |}) <$> positionsMap candidatesData.

Inductive toast :=
| NoApprovedCandidates
| CandidatesLoaded (candidates positions : nat)
| FailedToLoad.

(** [fetchApprovedCandidates] after the query has answered: the argument is
    the error, or the rows (possibly [null]); the result is what
    [setPositions] receives and the toast shown. *)
Definition fetchApprovedCandidates (answer : string + option (list application_row))
  : list Position * toast :=
  match answer with
  | inl _ => ([], FailedToLoad)
  | inr None | inr (Some []) => ([], NoApprovedCandidates)
  | inr (Some candidatesData) =>
      let positions := positionsWithCandidates candidatesData in
      (positions, CandidatesLoaded (length candidatesData) (length positions))
  end.

(** [positions.reduce((sum, pos) => sum + pos.candidates.length, 0)] *)
Definition totalCandidates (positions : list Position) : nat :=
  foldl (λ sum pos, sum + length (pos_candidates pos)) 0 positions.

(** The positions the preview and the PDF are given. *)
Definition with_candidates (positions : list Position) : list Position :=
  filter (λ p, 0 < length (pos_candidates p)) positions.

End BallotAdmin.

(* ===================================================================== *)
(** * The physical votes dialog *)
(* ===================================================================== *)

Module PhysicalVotes.

Record physical_vote := {
  candidate_id : string;
  candidate_name : string;
  position : string;
  votes_count : float;
  notes : option string;
  added_at : string
}.

Inductive toast :=
| InvalidInput
| Added (votesCount : float) (candidateName : string)
| FailedToAdd.

Inductive effect :=
| PreventDefault
| Toast (t : toast)
| SetLoading (b : bool)
| Insert (row : physical_vote)
| SetVotes (s : string)
| SetNotes (s : string)
| OnOpenChange (b : bool)
| OnSuccess
| ConsoleError.

(** [isNaN(x)] *)
Definition isNaN (x : float) : bool := negb (PrimFloat.eqb x x).

Section Dialog.

(** [parseInt] and the clock are the platform's. *)
Variable parseInt : string → float.
Variable now : string.

Variable candidateId candidateName position_title : string.

(** [handleSubmit] with the form holding [votes] and [notes]; [insert_fails]
    says whether the insert, once made, reports an error or throws.  The two
    callbacks of the dialog are taken not to throw. *)
Definition handleSubmit (votes notes : string) (insert_fails : physical_vote → bool)
  : list effect :=
  let votesCount := parseInt votes in
  if isNaN votesCount || PrimFloat.ltb votesCount 0
  then [PreventDefault; Toast InvalidInput]
  else
    let row := {| candidate_id := candidateId;
                  candidate_name := candidateName;
                  position := position_title;
                  votes_count := votesCount;
                  notes := if JS.truthy_string notes then Some notes else None;
                  added_at := now |} in
    [PreventDefault; SetLoading true; Insert row]
    ++ (if insert_fails row
        then [ConsoleError; Toast FailedToAdd]
        else [Toast (Added votesCount candidateName); SetVotes EmptyString;
              SetNotes EmptyString; OnOpenChange false; OnSuccess])
    ++ [SetLoading false].

End Dialog.

(** The state of the three form cells after a list of effects. *)
Record form := { votes : string; form_notes : string; loading : bool }.

Definition form_step (f : form) (e : effect) : form :=
  match e with
  | SetLoading b => {| votes := votes f; form_notes := form_notes f; loading := b |}
  | SetVotes s => {| votes := s; form_notes := form_notes f; loading := loading f |}
  | SetNotes s => {| votes := votes f; form_notes := s; loading := loading f |}
  | _ => f
  end.

End PhysicalVotes.

(* ===================================================================== *)
(** * Vocabulary for the ballot generation page *)
(* ===================================================================== *)

Module AdminSpec.

Import Ballot Rows BallotAdmin.

(** The candidates built from the applications titled [k], in query order. *)
Definition applicants (k : string) (candidatesData : list application_row)
  : list Candidate :=
  candidate_of <$> filter (λ app, positionTitle app = k) candidatesData.

(** [map.get(k)] *)
Fixpoint map_get (k : string) (m : list (string * list Candidate))
  : option (list Candidate) :=
  match m with
  | [] => None
  | (k', cs) :: m' => if decide (k' = k) then Some cs else map_get k m'
  end.

Fixpoint all_chars (P : Ascii.ascii → bool) (s : string) : bool :=
  match s with
  | EmptyString => true
  | String c s' => P c && all_chars P s'
  end.

Definition is_ascii (c : Ascii.ascii) : bool := code c <? 128.

(** An identifier character: [a-z], [0-9] or the underscore. *)
Definition is_id_char (c : Ascii.ascii) : bool :=
  is_slug_char c || (code c =? 95).

End AdminSpec.

(* ===================================================================== *)
(** * Concrete query answers *)
(* ===================================================================== *)

Module Cases.

Import Rows.

Definition head_boy : position_row :=
  {| row_id := "p-head-boy"; row_title := "Head Boy"; row_description := None |}.

(** A position nobody has applied for. *)
Definition games_captain : position_row :=
  {| row_id := "p-games"; row_title := "Games Captain";
     row_description := Some "Leads the games department" |}.

Definition application (id name : string) (position : option string) : application_row :=
  {| app_id := id; student_name := name;
     student_email := id +:+ "@school.example"; student_photo := None;
     class_name := "S5"; stream_name := "West"; app_position := position |}.

Definition confirmed_applications : list application_row :=
  [application "a1" "Akello" (Some "p-head-boy");
   application "a2" "Businge" None;
   application "a3" "Mukasa" (Some "p-head-boy")].

End Cases.

Import Ballot BallotSpec BallotCounts.

(** Closed goals about concrete sessions are settled by evaluation, one
    conjunct at a time. *)
Ltac by_evaluation :=
  repeat lazymatch goal with
         | |- _ ∧ _ => split
         end;
  vm_compute; reflexivity.

(* ===================================================================== *)
(** * Facts about the event loop *)
(* ===================================================================== *)

Section EventLoop.

Variable positions : list Position.

Lemma run_app w es1 es2 :
  run positions w (es1 ++ es2) = run positions w es1 ≫= λ w', run positions w' es2.
Proof.
  revert w. induction es1 as [|e es1 IH]; intros w; simpl; [done|].
  destruct (step positions w e) as [w'|]; simpl; [apply IH | done].
Qed.

(** A property kept by every step holds along every run. *)
Lemma run_invariant (I : world → Prop) :
  (∀ w e w', I w → step positions w e = Some w' → I w') →
  ∀ es w w', I w → run positions w es = Some w' → I w'.
Proof.
  intros Hstep es. induction es as [|e es IH]; intros w w' Hw Hrun; simpl in Hrun.
  - by simplify_eq.
  - destruct (step positions w e) as [w1|] eqn:He; simpl in Hrun; [|done].
    eapply IH; [|exact Hrun]. eauto.
Qed.

Lemma owed_enqueue due t q : owed (enqueue due t q) = owes t + owed q.
Proof.
  induction q as [|[d t'] q IH]; simpl; [done|].
  destruct (d <=? due); simpl; [rewrite IH; lia | done].
Qed.

Lemma accepted_app tr1 tr2 : accepted (tr1 ++ tr2) = accepted tr1 + accepted tr2.
Proof.
  induction tr1 as [|e tr1 IH]; simpl; [done|].
  destruct e; simpl; rewrite IH; lia.
Qed.

Lemma final_submits_app tr1 tr2 :
  final_submits (tr1 ++ tr2) = final_submits tr1 + final_submits tr2.
Proof.
  induction tr1 as [|e tr1 IH]; simpl; [done|].
  destruct e; simpl; rewrite IH; lia.
Qed.

(** Timers never touch the two maps or the unsettled submissions. *)
Lemma run_timer_maps t w :
  selections (st (run_timer positions t w)) = selections (st w)
  ∧ locked (st (run_timer positions t w)) = locked (st w)
  ∧ calls (run_timer positions t w) = calls w.
Proof.
  destruct t as [i sel| |sel|sel]; simpl; try done.
  destruct (i <? totalPositions positions - 1); done.
Qed.

(** A timer moves the index by at most one, and only [AdvanceDone] moves it. *)
Lemma run_timer_index t w :
  currentPositionIndex (st (run_timer positions t w))
  = match t with
    | AdvanceDone => S (currentPositionIndex (st w))
    | _ => currentPositionIndex (st w)
    end.
Proof.
  destruct t as [i sel| |sel|sel]; simpl; try done.
  destruct (i <? totalPositions positions - 1); done.
Qed.

Lemma handleSelectCandidate_index p c w :
  currentPositionIndex (st (handleSelectCandidate p c w)) = currentPositionIndex (st w).
Proof. unfold handleSelectCandidate. destruct (is_locked _ _); done. Qed.

Lemma step_index w e w' :
  step positions w e = Some w' →
  currentPositionIndex (st w') = currentPositionIndex (st w)
  ∨ currentPositionIndex (st w') = S (currentPositionIndex (st w)).
Proof.
  destruct e as [c|n o|ms|]; simpl; intros H.
  - destruct (ballot_rendered positions (st w)) as [p|]; simplify_eq/=.
    left. apply handleSelectCandidate_index.
  - destruct (calls w !! n) as [c|]; simplify_eq/=.
    destruct o; simplify_eq/=; by left.
  - destruct (timers w) as [|[d t] q]; simplify_eq/=; [by left|].
    destruct (clock w + ms <=? d); simplify_eq/=. by left.
  - destruct (timers w) as [|[d t] q]; simplify_eq/=.
    rewrite run_timer_index. destruct t; simpl; auto.
Qed.

Lemma step_accounted i0 w e w' :
  accounted i0 w → step positions w e = Some w' → accounted i0 w'.
Proof.
  unfold accounted. destruct e as [c|n o|ms|]; simpl; intros Hw H.
  - destruct (ballot_rendered positions (st w)) as [p|]; simplify_eq/=.
    unfold handleSelectCandidate. destruct (is_locked _ _); [done|]. simpl.
    rewrite owed_enqueue, accepted_app, final_submits_app. simpl. lia.
  - destruct (calls w !! n) as [c|]; simplify_eq/=.
    destruct o; simplify_eq/=; [done|].
    rewrite !accepted_app, !final_submits_app. simpl. lia.
  - destruct (timers w) as [|[d t] q]; simplify_eq/=; [done|].
    destruct (clock w + ms <=? d); simplify_eq/=. done.
  - destruct (timers w) as [|[d t] q]; simplify_eq/=.
    destruct t as [i sel| |sel|sel]; simpl in *.
    + destruct (i <? totalPositions positions - 1); simpl;
        rewrite owed_enqueue; simpl; lia.
    + lia.
    + rewrite owed_enqueue, accepted_app, final_submits_app. simpl. lia.
    + rewrite !accepted_app, !final_submits_app. simpl. lia.
Qed.

End EventLoop.

(* ===================================================================== *)
(** * Selecting a candidate *)
(* ===================================================================== *)

Section Selecting.

Variable positions : list Position.

(** C4: an accepted selection (the ballot of position [p] is on screen and
    [p] is not locked) records the chosen candidate and locks the position
    in the same step in which the submission is issued; exactly one
    submission call is issued, and it is still unsettled afterwards. *)
Theorem C4_accepted_selection_locks_and_submits_once w p candidateId :
  ballot_rendered positions (st w) = Some p →
  is_locked (locked (st w)) (pos_id p) = false →
  ∃ w',
    step positions w (Click candidateId) = Some w'
    ∧ selections (st w') !! pos_id p = Some candidateId
    ∧ locked (st w') !! pos_id p = Some true
    ∧ trace w' = trace w ++ [OnVotePosition (pos_id p) candidateId]
    ∧ calls w' = calls w ++ [{| vc_position := pos_id p;
                                vc_candidate := candidateId;
                                vc_selections := selections (st w);
                                vc_locked := locked (st w) |}]
    ∧ currentPositionIndex (st w') = currentPositionIndex (st w)
    ∧ clock w' = clock w.
Proof.
  intros Hp Hlk. eexists. split.
  - simpl. rewrite Hp. simpl. unfold handleSelectCandidate. rewrite Hlk. reflexivity.
  - simpl. by rewrite !lookup_insert_eq.
Qed.

(** C5: selecting while the current position is locked changes nothing:
    the whole world (both maps, the index, the timers, the unsettled
    submissions and the calls made so far) is the same. *)
Theorem C5_select_on_locked_is_noop w p candidateId :
  ballot_rendered positions (st w) = Some p →
  is_locked (locked (st w)) (pos_id p) = true →
  step positions w (Click candidateId) = Some w.
Proof.
  intros Hp Hlk. simpl. rewrite Hp. simpl.
  unfold handleSelectCandidate. by rewrite Hlk.
Qed.

End Selecting.

(** The first click of a fresh three-position session. *)
Lemma C4_witness :
  ∃ w',
    step Scenario.three_positions (mount initial_state) (Click "A") = Some w'
    ∧ selections (st w') !! "pos0" = Some "A"
    ∧ locked (st w') !! "pos0" = Some true
    ∧ trace w' = [OnVotePosition "pos0" "A"].
Proof.
  destruct (C4_accepted_selection_locks_and_submits_once Scenario.three_positions
              (mount initial_state) (Scenario.position_of "pos0" "A" "B") "A")
    as (w' & Hs & Hsel & Hlk & Htr & _);
    [vm_compute; reflexivity | vm_compute; reflexivity |].
  exists w'. repeat split; assumption.
Defined.

(** A second click on position 0 right after the first one. *)
Lemma C5_witness :
  step Scenario.three_positions (Scenario.after Scenario.three_positions [Click "A"])
    (Click "B")
  = Some (Scenario.after Scenario.three_positions [Click "A"]).
Proof.
  apply (C5_select_on_locked_is_noop Scenario.three_positions
           (Scenario.after Scenario.three_positions [Click "A"])
           (Scenario.position_of "pos0" "A" "B") "B"); vm_compute; reflexivity.
Defined.

(* ===================================================================== *)
(** * Auto-advance *)
(* ===================================================================== *)

(** Along every run of the events above from a mounted state, the index
    never decreases, every step leaves it unchanged or adds exactly one, and
    the increments are paid for one by one by accepted selections, rolled
    back or not: the index, the timers still pending and the final
    submissions add up to the starting index plus the number of accepted
    selections. *)
Lemma index_moves_by_single_steps positions s0 es w :
  run positions (mount s0) es = Some w →
  currentPositionIndex s0 ≤ currentPositionIndex (st w)
  ∧ accounted (currentPositionIndex s0) w
  ∧ ∀ e w', step positions w e = Some w' →
      currentPositionIndex (st w') = currentPositionIndex (st w)
      ∨ currentPositionIndex (st w') = S (currentPositionIndex (st w)).
Proof.
  intros Hrun. split; [|split].
  - refine (run_invariant positions
              (λ w, currentPositionIndex s0 ≤ currentPositionIndex (st w))
              _ es (mount s0) w _ Hrun); [|simpl; lia].
    intros w1 e w2 Hle Hstep. destruct (step_index positions _ _ _ Hstep); lia.
  - refine (run_invariant positions (accounted (currentPositionIndex s0))
              _ es (mount s0) w _ Hrun); [|unfold accounted; simpl; lia].
    intros w1 e w2. apply step_accounted.
  - intros e w'. apply step_index.
Qed.

(** Three positions voted in order: the index ends at 2 after three accepted
    selections, two of them paid by an increment and one by the final
    submission. *)
Lemma index_moves_example :
  currentPositionIndex (st (Scenario.after Scenario.three_positions Scenario.vote_all_three)) = 2
  ∧ accounted 0 (Scenario.after Scenario.three_positions Scenario.vote_all_three).
Proof.
  destruct (index_moves_by_single_steps Scenario.three_positions initial_state
              Scenario.vote_all_three
              (Scenario.after Scenario.three_positions Scenario.vote_all_three))
    as (_ & Hacc & _); [vm_compute; reflexivity|].
  split; [vm_compute; reflexivity | exact Hacc].
Defined.

(** C8: two positions.  Position 0 is voted, its submission fails 100 ms
    later, position 0 is voted again after another 100 ms, and the four
    pending timers run.  The 1500 ms timer of the rolled-back selection is
    still pending and advances like the other one: the index is 1 at 1900 ms
    and 2 at 2100 ms.  Position 1 is on screen for 200 ms and is passed
    without a selection and without a submission call; index 2 is no
    position of the ballot, so no ballot is on screen, no timer is pending
    and the completion callback has not been invoked. *)
Theorem C8_revote_passes_a_position_unvoted :
  ∃ w1 w2,
    run Scenario.two_positions (mount initial_state)
      [Click "A"; Wait 100; Settle 0 (Rejected (Some "network error"));
       Wait 100; Click "B"; Fire; Fire; Fire] = Some w1
    ∧ currentPositionIndex (st w1) = 1
    ∧ clock w1 = 1900
    ∧ step Scenario.two_positions w1 Fire = Some w2
    ∧ run Scenario.two_positions (mount initial_state)
        Scenario.revote_after_early_failure = Some w2
    ∧ currentPositionIndex (st w2) = 2
    ∧ clock w2 = 2100
    ∧ totalPositions Scenario.two_positions = 2
    ∧ selections (st w2) = {[ "pos0" := "B" ]}
    ∧ trace w2 = [OnVotePosition "pos0" "A"; ConsoleError;
                  Alert "Failed to record vote: network error. Please try again.";
                  OnVotePosition "pos0" "B"]
    ∧ ballot_rendered Scenario.two_positions (st w2) = None
    ∧ timers w2 = []
    ∧ completions (trace w2) = [].
Proof.
  exists (Scenario.after Scenario.two_positions
            [Click "A"; Wait 100; Settle 0 (Rejected (Some "network error"));
             Wait 100; Click "B"; Fire; Fire; Fire]).
  exists (Scenario.after Scenario.two_positions Scenario.revote_after_early_failure).
  by_evaluation.
Qed.

(** Two accepted selections for the same position (the second after a
    rollback) pay two increments: the index goes 0, 1, 2, one step at a time,
    and position 1 is left without a selection. *)
Lemma reselection_pays_second_increment :
  ∃ w,
    run Scenario.three_positions (mount initial_state)
      Scenario.revote_after_early_failure = Some w
    ∧ accepted (trace w) = 2
    ∧ currentPositionIndex (st w) = 2
    ∧ selections (st w) = {[ "pos0" := "B" ]}
    ∧ timers w = [].
Proof.
  exists (Scenario.after Scenario.three_positions Scenario.revote_after_early_failure).
  by_evaluation.
Qed.

(* ===================================================================== *)
(** * Rollback on a failed submission *)
(* ===================================================================== *)

Section Rollback.

Variable positions : list Position.

Lemma unlocked_unselected sel lk k :
  consistent sel lk → is_locked lk k = false → sel !! k = None.
Proof.
  intros Hc Hlk. destruct (sel !! k) as [c|] eqn:Hk; [|done].
  apply Hc in Hk. unfold is_locked in Hlk. by rewrite Hk in Hlk.
Qed.

Lemma consistent_select sel lk k c :
  consistent sel lk → consistent (<[k := c]> sel) (<[k := true]> lk).
Proof.
  intros Hc i x Hi. destruct (decide (k = i)) as [->|Hne].
  - by rewrite lookup_insert_eq.
  - rewrite lookup_insert_ne in Hi by done.
    rewrite lookup_insert_ne by done. by eapply Hc.
Qed.

Lemma consistent_unlock sel lk k :
  consistent sel lk → sel !! k = None → consistent sel (<[k := false]> lk).
Proof.
  intros Hc Hk i x Hi. destruct (decide (k = i)) as [->|Hne]; [congruence|].
  rewrite lookup_insert_ne by done. by eapply Hc.
Qed.

Lemma step_lock_invariant w e w' :
  lock_invariant w → step positions w e = Some w' → lock_invariant w'.
Proof.
  unfold lock_invariant. intros [Hc Hcalls].
  destruct e as [c|n o|ms|]; simpl; intros H.
  - destruct (ballot_rendered positions (st w)) as [p|]; simplify_eq/=.
    unfold handleSelectCandidate.
    destruct (is_locked _ _) eqn:Hlk; [done|]. simpl. split.
    + by apply consistent_select.
    + apply Forall_app. split; [done|]. apply Forall_singleton.
      split; simpl; [done|]. by eapply unlocked_unselected.
  - destruct (calls w !! n) as [c|] eqn:Hn; simplify_eq/=.
    pose proof (Forall_lookup_1 _ _ _ _ Hcalls Hn) as [Hc1 Hc2].
    destruct o; simplify_eq/=; (split; [|by apply Forall_delete]); [done|].
    by apply consistent_unlock.
  - destruct (timers w) as [|[d t] q]; simplify_eq/=; [done|].
    destruct (clock w + ms <=? d); simplify_eq/=. done.
  - destruct (timers w) as [|[d t] q]; simplify_eq/=.
    destruct (run_timer_maps positions t
                {| st := st w; clock := clock w `max` d; timers := q;
                   calls := calls w; trace := trace w |}) as (-> & -> & ->).
    done.
Qed.

(** C2: in every world a session can reach from a consistent mounted state,
    whatever it has advanced to, the failure of any unsettled submission
    leaves its position with lock [false] and no selection, shows the
    alert, and does not move the machine. *)
Theorem C2_rollback_unlocks_and_clears s0 es w n c message :
  consistent (selections s0) (locked s0) →
  run positions (mount s0) es = Some w →
  calls w !! n = Some c →
  ∃ w',
    step positions w (Settle n (Rejected message)) = Some w'
    ∧ locked (st w') !! vc_position c = Some false
    ∧ selections (st w') !! vc_position c = None
    ∧ trace w' = trace w ++ [ConsoleError; Alert (alert_text message)]
    ∧ currentPositionIndex (st w') = currentPositionIndex (st w)
    ∧ showReview (st w') = showReview (st w)
    ∧ showSuccess (st w') = showSuccess (st w).
Proof.
  intros Hc0 Hrun Hn.
  assert (lock_invariant w) as [_ Hcalls].
  { refine (run_invariant positions lock_invariant _ es (mount s0) w _ Hrun).
    - intros w1 e w2. apply step_lock_invariant.
    - split; [exact Hc0 | constructor]. }
  pose proof (Forall_lookup_1 _ _ _ _ Hcalls Hn) as [_ Hnone].
  eexists. split; [simpl; rewrite Hn; reflexivity|]. simpl.
  rewrite lookup_insert_eq, <- app_assoc. done.
Qed.

End Rollback.

(** The submission for position 0 fails after the ballot has advanced to
    position 1 and position 1 has been voted. *)
Lemma C2_witness :
  ∃ w',
    step Scenario.three_positions
      (Scenario.after Scenario.three_positions Scenario.vote_two_of_three)
      (Settle 0 (Rejected (Some "network error"))) = Some w'
    ∧ locked (st w') !! "pos0" = Some false
    ∧ selections (st w') !! "pos0" = None
    ∧ last (trace w') = Some (Alert "Failed to record vote: network error. Please try again.")
    ∧ currentPositionIndex (st w') = 1.
Proof.
  destruct (C2_rollback_unlocks_and_clears Scenario.three_positions initial_state
              Scenario.vote_two_of_three
              (Scenario.after Scenario.three_positions Scenario.vote_two_of_three)
              0
              {| vc_position := "pos0"; vc_candidate := "A";
                 vc_selections := ∅; vc_locked := ∅ |}
              (Some "network error"))
    as (w' & Hs & Hlk & Hsel & Htr & Hi & _).
  - apply map_Forall_empty.
  - vm_compute; reflexivity.
  - vm_compute; reflexivity.
  - exists w'. split; [exact Hs|]. split; [exact Hlk|]. split; [exact Hsel|].
    split; [|exact Hi].
    rewrite Htr, last_app. reflexivity.
Defined.

(* ===================================================================== *)
(** * Final submission *)
(* ===================================================================== *)

Section FinalSubmission.

Variable positions : list Position.

Local Arguments Nat.ltb : simpl never.

(** The 1500 ms callback of a selection made at the last index schedules
    the final submission whatever the state is by then: the branch reads
    the captured index only. *)
Lemma last_index_schedules_submit sel w :
  run_timer positions (AutoAdvance (totalPositions positions - 1) sel) w
  = setTimeout (AutoSubmit sel) 800 w.
Proof. simpl. by rewrite Nat.ltb_irrefl. Qed.

(** C10: with no timer pending, an accepted selection at the last index is
    followed, 1500 + 800 + 2000 ms later and with no further condition on
    the other positions, by the completion callback; its argument is the
    selection map of the render in which the click happened. *)
Theorem C10_last_index_alone_triggers_completion w p candidateId :
  timers w = [] →
  ballot_rendered positions (st w) = Some p →
  currentPositionIndex (st w) = totalPositions positions - 1 →
  is_locked (locked (st w)) (pos_id p) = false →
  ∃ w',
    run positions w [Click candidateId; Fire; Fire; Fire] = Some w'
    ∧ trace w' = trace w ++ [OnVotePosition (pos_id p) candidateId; CreateConfetti;
                             SetVoteSubmitted; OnVoteComplete (selections (st w))]
    ∧ clock w' = clock w + 4300
    ∧ showSuccess (st w') = true
    ∧ timers w' = [].
Proof.
  intros Ht Hp Hi Hlk. eexists. split.
  - cbn [run]. cbn [step]. rewrite Hp. cbn [mbind option_bind].
    unfold handleSelectCandidate. rewrite Hlk. cbn. rewrite Ht. cbn.
    rewrite Hi, Nat.ltb_irrefl. cbn. reflexivity.
  - cbn. rewrite <- !app_assoc. repeat split. lia.
Qed.

End FinalSubmission.

(** Two positions; the submission for position 0 fails after the ballot has
    reached the last position, nobody votes position 0 again, and the vote
    for the last position still completes the session: the callback is
    invoked with a map that has no entry for position 0. *)
Lemma C10_witness :
  run Scenario.two_positions (mount initial_state) Scenario.first_vote_fails_late
  = Some (Scenario.after Scenario.two_positions Scenario.first_vote_fails_late)
  ∧ selections (st (Scenario.after Scenario.two_positions Scenario.first_vote_fails_late))
      !! "pos0" = None
  ∧ ∃ w',
      run Scenario.two_positions
        (Scenario.after Scenario.two_positions Scenario.first_vote_fails_late)
        [Click "C"; Fire; Fire; Fire] = Some w'
      ∧ completions (trace w') = [∅].
Proof.
  split; [vm_compute; reflexivity|]. split; [vm_compute; reflexivity|].
  destruct (C10_last_index_alone_triggers_completion Scenario.two_positions
              (Scenario.after Scenario.two_positions Scenario.first_vote_fails_late)
              (Scenario.position_of "pos1" "C" "D") "C")
    as (w' & Hrun & Htr & _);
    [vm_compute; reflexivity | vm_compute; reflexivity | vm_compute; reflexivity
    | vm_compute; reflexivity |].
  exists w'. split; [exact Hrun|]. rewrite Htr. vm_compute. reflexivity.
Defined.

(** C1: three positions, each with two candidates, voted A, C, E in order
    with every delay elapsed.  The completion callback is invoked once, 4300
    ms after the last selection, but its argument is the selection map of
    the render in which the last click happened: it holds A and C and has no
    entry for the last position, although the state holds all three. *)
Theorem C1_completion_argument_lacks_last_selection :
  ∃ w,
    run Scenario.three_positions (mount initial_state) Scenario.vote_all_three = Some w
    ∧ completions (trace w) = [ {[ "pos0" := "A"; "pos1" := "C" ]} ]
    ∧ ({[ "pos0" := "A"; "pos1" := "C" ]} : gmap string string) !! "pos2" = None
    ∧ selections (st w) = {[ "pos0" := "A"; "pos1" := "C"; "pos2" := "E" ]}
    ∧ clock w = 3800 + 4300.
Proof.
  exists (Scenario.after Scenario.three_positions Scenario.vote_all_three).
  by_evaluation.
Qed.

(** C3: three positions; position 0 is voted A, the ballot advances,
    position 1 is voted C, and only then the submission for position 0
    fails.  Before the rollback position 1 holds C and is locked; after it
    position 1 has neither a selection nor a lock: the handler writes back
    the two maps of the render in which position 0 was clicked. *)
Theorem C3_late_rollback_discards_later_position :
  ∃ w w',
    run Scenario.three_positions (mount initial_state) Scenario.vote_two_of_three = Some w
    ∧ selections (st w) !! "pos1" = Some "C"
    ∧ locked (st w) !! "pos1" = Some true
    ∧ step Scenario.three_positions w (Settle 0 (Rejected (Some "network error"))) = Some w'
    ∧ selections (st w') !! "pos1" = None
    ∧ locked (st w') !! "pos1" = None
    ∧ selections (st w') = ∅
    ∧ locked (st w') = {[ "pos0" := false ]}.
Proof.
  exists (Scenario.after Scenario.three_positions Scenario.vote_two_of_three).
  exists (Scenario.after Scenario.three_positions
            (Scenario.vote_two_of_three ++ [Settle 0 (Rejected (Some "network error"))])).
  by_evaluation.
Qed.

(* ===================================================================== *)
(** * Session restore *)
(* ===================================================================== *)

Section RestoreFacts.

Variable JSON_parse : string → JS.result JS.value.
Variable positions : list Position.

Lemma get_snapshot_selections sel lk :
  JS.get (snapshot_value sel lk) "selections" = inr (JS.Obj (JS.Str <$> sel)).
Proof. unfold snapshot_value. simpl. by rewrite lookup_insert_eq. Qed.

Lemma get_snapshot_locked sel lk :
  JS.get (snapshot_value sel lk) "locked" = inr (JS.Obj (JS.Bool <$> lk)).
Proof.
  unfold snapshot_value. simpl.
  rewrite lookup_insert_ne by done. by rewrite lookup_insert_eq.
Qed.

Lemma as_record_strings (sel : gmap string string) :
  JS.as_record JS.as_string (JS.Obj (JS.Str <$> sel)) = Some sel.
Proof.
  simpl. rewrite decide_True.
  - f_equal. apply map_eq. intros k.
    rewrite lookup_omap, lookup_fmap. by destruct (sel !! k).
  - apply map_Forall_fmap. intros k x _. simpl. eauto.
Qed.

Lemma as_record_bools (lk : gmap string bool) :
  JS.as_record JS.as_bool (JS.Obj (JS.Bool <$> lk)) = Some lk.
Proof.
  simpl. rewrite decide_True.
  - f_equal. apply map_eq. intros k.
    rewrite lookup_omap, lookup_fmap. by destruct (lk !! k).
  - apply map_Forall_fmap. intros k x _. simpl. eauto.
Qed.

Lemma keys_snapshot (sel : gmap string string) :
  JS.keys (JS.Obj (JS.Str <$> sel)) = inr (fst <$> map_to_list (JS.Str <$> sel))
  ∧ length (fst <$> map_to_list (JS.Str <$> sel)) = size sel.
Proof.
  split; [done|]. by rewrite length_fmap, length_map_to_list, map_size_fmap.
Qed.

Lemma unselected_selected sel p : unselected sel p = false ↔ selected sel p.
Proof.
  unfold unselected, selected, JS.truthy_string. split.
  - destruct (sel !! pos_id p) as [c|]; [|done].
    intros Hc. exists c. split; [done|]. intros ->. done.
  - intros (c & -> & Hc). apply negb_false_iff, negb_true_iff.
    by apply String.eqb_neq.
Qed.

Lemma lacks_selection_snapshot sel lk p :
  lacks_selection (snapshot_value sel lk) p = inr (unselected sel p).
Proof.
  unfold lacks_selection. rewrite get_snapshot_selections. simpl.
  rewrite lookup_fmap. unfold unselected. by destruct (sel !! pos_id p).
Qed.

(** [findIndex] with a test that never throws: the first hit, or none. *)
Lemma findIndex_from_first f (g : Position → bool) l i j p :
  (∀ q, f q = inr (g q)) →
  l !! j = Some p → g p = true →
  (∀ k q, k < j → l !! k = Some q → g q = false) →
  findIndex_from f l i = inr (Some (i + j)).
Proof.
  intros Hf. revert i j. induction l as [|q l IH]; intros i j Hj Hp Hbefore; [done|].
  simpl. rewrite Hf. simpl. destruct j as [|j]; simpl in Hj.
  - simplify_eq. rewrite Hp. by rewrite Nat.add_0_r.
  - rewrite (Hbefore 0 q) by (simpl; done || lia).
    rewrite (IH (S i) j Hj Hp).
    + f_equal. f_equal. lia.
    + intros k q' Hk Hq'. apply (Hbefore (S k) q'); [lia | done].
Qed.

Lemma findIndex_from_returns f (g : Position → bool) l i :
  (∀ q, f q = inr (g q)) → ∃ r, findIndex_from f l i = inr r.
Proof.
  intros Hf. revert i. induction l as [|q l IH]; intros i; simpl; [by eexists|].
  rewrite Hf. simpl. destruct (g q); [by eexists | apply IH].
Qed.

Lemma findIndex_from_none f (g : Position → bool) l i :
  (∀ q, f q = inr (g q)) →
  (∀ q, q ∈ l → g q = false) →
  findIndex_from f l i = inr None.
Proof.
  intros Hf. revert i. induction l as [|q l IH]; intros i Hall; [done|].
  simpl. rewrite Hf. simpl. rewrite (Hall q) by apply list_elem_of_here.
  apply IH. intros q' Hq'. apply Hall. by apply list_elem_of_further.
Qed.

(** The setter calls of the effect on a snapshot the save effect wrote,
    given what [findIndex] returned. *)
Lemma restore_effect_snapshot s sel lk r :
  JS.truthy_string s = true →
  JSON_parse s = inr (snapshot_value sel lk) →
  findIndex (lacks_selection (snapshot_value sel lk)) positions = inr r →
  restore_effect JSON_parse positions (Some s) []
  = ([SetSelections (JS.Obj (JS.Str <$> sel)); SetLocked (JS.Obj (JS.Bool <$> lk))]
       ++ match r with
          | Some i => [SetCurrentPositionIndex i]
          | None => if size sel =? length positions then [SetShowReview true] else []
          end,
     inr tt).
Proof.
  intros Hs Hparse Hfind. unfold restore_effect. rewrite Hs.
  unfold try_catch, restore_body.
  unfold mbind, effectful_bind, lift, call. rewrite Hparse.
  rewrite get_snapshot_selections, get_snapshot_locked, Hfind. simpl.
  destruct r as [i|]; simpl; [done|].
  destruct (keys_snapshot sel) as [_ ->].
  destruct (size sel =? length positions); done.
Qed.

End RestoreFacts.

Section Restoring.

Variable JSON_parse : string → JS.result JS.value.
Variable positions : list Position.

Lemma restored_state_snapshot s sel lk r :
  JS.truthy_string s = true →
  JSON_parse s = inr (snapshot_value sel lk) →
  findIndex (lacks_selection (snapshot_value sel lk)) positions = inr r →
  restored_state JSON_parse positions (Some s)
  = Some (match r with
          | Some i => setCurrentPositionIndex (λ _, i)
          | None => if size sel =? length positions then setShowReview true else id
          end (setLocked lk (setSelections sel initial_state))).
Proof.
  intros Hs Hparse Hfind. unfold restored_state.
  rewrite (restore_effect_snapshot _ _ s sel lk r Hs Hparse Hfind).
  cbn [app apply_commands apply_command].
  rewrite as_record_strings. cbn [mbind option_bind].
  rewrite as_record_bools. cbn [mbind option_bind].
  destruct r as [i|]; [done|].
  destruct (size sel =? length positions); done.
Qed.

(** C6 (as the code has it): a snapshot written by the save effect is
    restored as it is; the session resumes at the first position without a
    selection when there is one; when every position has a selection it
    stays at index 0 and shows the review exactly when the snapshot's
    selection map has as many entries as there are positions; with nothing
    stored it starts from the initial state. *)
Theorem C6_restore_resumes_or_reviews s sel lk :
  JS.truthy_string s = true →
  JSON_parse s = inr (snapshot_value sel lk) →
  ∃ st',
    restored_state JSON_parse positions (Some s) = Some st'
    ∧ selections st' = sel
    ∧ locked st' = lk
    ∧ (∀ j p,
         positions !! j = Some p → ¬ selected sel p →
         (∀ i q, i < j → positions !! i = Some q → selected sel q) →
         currentPositionIndex st' = j ∧ showReview st' = false)
    ∧ ((∀ p, p ∈ positions → selected sel p) →
         currentPositionIndex st' = 0
         ∧ showReview st' = bool_decide (size sel = length positions))
    ∧ restored_state JSON_parse positions None = Some initial_state.
Proof.
  intros Hs Hparse.
  destruct (findIndex (lacks_selection (snapshot_value sel lk)) positions)
    as [e|r] eqn:Hfind.
  { destruct (findIndex_from_returns _ (unselected sel) positions 0
                (lacks_selection_snapshot sel lk)) as [r Hr].
    unfold findIndex in Hfind. congruence. }
  eexists. split; [by apply restored_state_snapshot|].
  split; [by destruct r as [i|]; [|destruct (size sel =? length positions)]|].
  split; [by destruct r as [i|]; [|destruct (size sel =? length positions)]|].
  split; [|split; [|done]].
  - intros j p Hj Hp Hbefore.
    assert (r = Some j) as ->; [|done].
    unfold findIndex in Hfind.
    rewrite (findIndex_from_first _ (unselected sel) positions 0 j p) in Hfind.
    + by simplify_eq.
    + apply lacks_selection_snapshot.
    + done.
    + destruct (unselected sel p) eqn:Hu; [done|].
      by apply unselected_selected in Hu.
    + intros k q Hk Hq. apply unselected_selected. eauto.
  - intros Hall.
    assert (r = None) as ->.
    { unfold findIndex in Hfind.
      rewrite (findIndex_from_none _ (unselected sel) positions 0) in Hfind.
      - by simplify_eq.
      - apply lacks_selection_snapshot.
      - intros q Hq. apply unselected_selected. eauto. }
    destruct (size sel =? length positions) eqn:Hsize; simpl.
    + apply Nat.eqb_eq in Hsize. by rewrite bool_decide_eq_true_2.
    + apply Nat.eqb_neq in Hsize. by rewrite bool_decide_eq_false_2.
Qed.

(** X24: whatever is stored, and whatever [JSON.parse] makes of it, the
    restore effect returns normally: every exception of its body is caught
    and logged.  When [JSON.parse] itself throws, the only thing the effect
    does is log the failure, and the state is the one of a session with
    nothing stored. *)
Theorem X24_restore_returns_normally savedData :
  ∃ cs,
    restore_effect JSON_parse positions savedData [] = (cs, inr tt)
    ∧ ∀ s e,
        savedData = Some s → JS.truthy_string s = true → JSON_parse s = inl e →
        cs = [LogRestoreFailure e]
        ∧ restored_state JSON_parse positions savedData
          = restored_state JSON_parse positions None.
Proof.
  destruct savedData as [s|]; [|by eexists].
  unfold restored_state. simpl.
  destruct (JS.truthy_string s) eqn:Hs.
  2:{ eexists. split; [reflexivity|]. intros s' e' ? Hs' _. congruence. }
  unfold try_catch.
  destruct (restore_body JSON_parse positions s []) as [cs [e|[]]] eqn:Hbody.
  - eexists. split; [reflexivity|]. intros s' e' ? _ Hparse. simplify_eq.
    unfold restore_body, mbind, effectful_bind, lift in Hbody.
    rewrite Hparse in Hbody. by simplify_eq.
  - eexists. split; [reflexivity|]. intros s' e' ? _ Hparse. simplify_eq.
    unfold restore_body, mbind, effectful_bind, lift in Hbody.
    rewrite Hparse in Hbody. by simplify_eq.
Qed.

End Restoring.

(** The reload of the specification's scenario: positions 0 and 1 are in the
    snapshot, position 2 is not, and the session resumes at index 2 without
    the review. *)
Lemma C6_witness :
  ∃ st',
    restored_state Scenario.stored_parse Scenario.three_positions
      (Some Scenario.stored_two_of_three) = Some st'
    ∧ currentPositionIndex st' = 2
    ∧ showReview st' = false.
Proof.
  destruct (C6_restore_resumes_or_reviews Scenario.stored_parse Scenario.three_positions
              Scenario.stored_two_of_three
              {[ "pos0" := "A"; "pos1" := "C" ]}
              {[ "pos0" := true; "pos1" := true ]})
    as (st' & Hst & _ & _ & Hfirst & _);
    [vm_compute; reflexivity | vm_compute; reflexivity |].
  exists st'. split; [exact Hst|].
  apply (Hfirst 2 (Scenario.position_of "pos2" "E" "F")).
  - vm_compute; reflexivity.
  - intros Hsel. apply (proj2 (unselected_selected _ _)) in Hsel.
    vm_compute in Hsel. discriminate.
  - intros i q Hi Hq. apply unselected_selected.
    destruct i as [|[|i]]; [| |lia]; vm_compute in Hq; injection Hq as Hq;
      subst q; vm_compute; reflexivity.
Defined.

(** C6, as stated, fails: one position on the ballot, and a snapshot that
    holds a selection for it and for a position that is no longer on the
    ballot.  Every position has a selection, and the session neither shows
    the review nor moves from index 0. *)
Lemma C6_counterexample :
  (∀ p, p ∈ Scenario.one_position →
        selected Scenario.selections_with_retired_position p)
  ∧ ∃ st',
      restored_state Scenario.stored_parse Scenario.one_position
        (Some Scenario.stored_with_retired_position) = Some st'
      ∧ selections st' = Scenario.selections_with_retired_position
      ∧ showReview st' = false
      ∧ currentPositionIndex st' = 0.
Proof.
  split.
  - intros p Hp. apply list_elem_of_singleton in Hp as ->.
    exists "A". split; [vm_compute; reflexivity | discriminate].
  - exists (setLocked {[ "pos0" := true; "pos9" := true ]}
              (setSelections Scenario.selections_with_retired_position initial_state)).
    by_evaluation.
Qed.

(** A stored text that does not parse: the failure is logged and the state is
    the initial one. *)
Lemma X24_witness :
  ∃ cs,
    restore_effect Scenario.stored_parse Scenario.three_positions
      (Some Scenario.stored_truncated) [] = (cs, inr tt)
    ∧ cs = [LogRestoreFailure JS.SyntaxError]
    ∧ restored_state Scenario.stored_parse Scenario.three_positions
        (Some Scenario.stored_truncated) = Some initial_state.
Proof.
  destruct (X24_restore_returns_normally Scenario.stored_parse Scenario.three_positions
              (Some Scenario.stored_truncated)) as (cs & Hcs & Hfail).
  destruct (Hfail Scenario.stored_truncated JS.SyntaxError) as [Hlog Hstate];
    [reflexivity | vm_compute; reflexivity | vm_compute; reflexivity |].
  exists cs. split; [exact Hcs|]. split; [exact Hlog|]. exact Hstate.
Defined.

(** The other reload of the specification: all three positions are in the
    snapshot, and the session shows the review at once. *)
Lemma restore_all_selected_reviews :
  ∃ st',
    restored_state Scenario.stored_parse Scenario.three_positions
      (Some Scenario.stored_all_three) = Some st'
    ∧ showReview st' = true
    ∧ currentPositionIndex st' = 0
    ∧ ballot_rendered Scenario.three_positions st' = None.
Proof.
  exists (setShowReview true
            (setLocked {[ "pos0" := true; "pos1" := true; "pos2" := true ]}
               (setSelections {[ "pos0" := "A"; "pos1" := "C"; "pos2" := "E" ]}
                  initial_state))).
  by_evaluation.
Qed.

(** A stored object that parses but has no [selections] field: reading a
    property of [undefined] throws inside [findIndex], after both setters
    have been called, so the failure is logged and the lock map of the
    stored object is in the state. *)
Lemma restore_without_selections_keeps_locks :
  restore_effect Scenario.stored_parse Scenario.three_positions
    (Some Scenario.stored_locks_only) []
  = ([SetSelections (JS.Obj ∅);
      SetLocked (JS.Obj {[ "pos0" := JS.Bool true ]});
      LogRestoreFailure JS.TypeError], inr tt)
  ∧ restored_state Scenario.stored_parse Scenario.three_positions
      (Some Scenario.stored_locks_only)
    = Some (setLocked {[ "pos0" := true ]} initial_state).
Proof. by_evaluation. Qed.

(** A mounted ballot whose current position is locked, with no timer and no
    submission pending, stays as it is: clicks are ignored, and there is
    nothing else to run. *)
Lemma locked_ballot_is_stuck positions s p es w :
  ballot_rendered positions s = Some p →
  is_locked (locked s) (pos_id p) = true →
  run positions (mount s) es = Some w →
  st w = s ∧ timers w = [] ∧ calls w = [] ∧ trace w = [].
Proof.
  intros Hp Hlk Hrun.
  refine (run_invariant positions
            (λ w, st w = s ∧ timers w = [] ∧ calls w = [] ∧ trace w = [])
            _ es (mount s) w _ Hrun); [|done].
  intros w1 e w2 (Hst & Ht & Hc & Htr). destruct e as [c|n o|ms|]; simpl.
  - rewrite Hst, Hp. simpl. unfold handleSelectCandidate. rewrite Hst, Hlk.
    by intros [= <-].
  - rewrite Hc. done.
  - rewrite Ht. by intros [= <-].
  - rewrite Ht. done.
Qed.

(** C7: three positions, and the stored text [{"locked":{"pos0":true}}],
    which parses and has no [selections] field.  The effect returns
    normally and logs a [TypeError], but only after both setters have run:
    the state is not the one of a session with nothing stored, position 0 is
    locked without a selection, and from there no run of the session changes
    the state or makes a submission call. *)
Theorem C7_malformed_snapshot_is_half_restored :
  restore_effect Scenario.stored_parse Scenario.three_positions
    (Some Scenario.stored_locks_only) []
  = ([SetSelections (JS.Obj ∅);
      SetLocked (JS.Obj {[ "pos0" := JS.Bool true ]});
      LogRestoreFailure JS.TypeError], inr tt)
  ∧ restored_state Scenario.stored_parse Scenario.three_positions
      (Some Scenario.stored_locks_only)
    = Some (setLocked {[ "pos0" := true ]} initial_state)
  ∧ restored_state Scenario.stored_parse Scenario.three_positions None
    = Some initial_state
  ∧ locked (setLocked {[ "pos0" := true ]} initial_state) !! "pos0" = Some true
  ∧ locked initial_state !! "pos0" = None
  ∧ ∀ es,
      match run Scenario.three_positions
              (mount (setLocked {[ "pos0" := true ]} initial_state)) es with
      | Some w => st w = setLocked {[ "pos0" := true ]} initial_state ∧ trace w = []
      | None => True
      end.
Proof.
  split; [vm_compute; reflexivity|]. split; [vm_compute; reflexivity|].
  split; [vm_compute; reflexivity|]. split; [vm_compute; reflexivity|].
  split; [vm_compute; reflexivity|].
  intros es.
  destruct (run Scenario.three_positions
              (mount (setLocked {[ "pos0" := true ]} initial_state)) es)
    as [w|] eqn:Hrun; [|done].
  destruct (locked_ballot_is_stuck Scenario.three_positions
              (setLocked {[ "pos0" := true ]} initial_state)
              (Scenario.position_of "pos0" "A" "B") es w)
    as (Hst & _ & _ & Htr); [vm_compute; reflexivity | vm_compute; reflexivity | exact Hrun |].
  split; [exact Hst | exact Htr].
Qed.

(* ===================================================================== *)
(** * Vote status *)
(* ===================================================================== *)

Lemma voteStatus_invalid_iff locationDenied locationInfo :
  VotePage.voteStatus locationDenied locationInfo = "invalid"
  ↔ locationDenied = true
    ∨ (VotePage.not_coordinate (VotePage.latitude locationInfo) = true
       ∧ VotePage.not_coordinate (VotePage.longitude locationInfo) = true).
Proof.
  unfold VotePage.voteStatus.
  destruct locationDenied,
    (VotePage.not_coordinate (VotePage.latitude locationInfo)),
    (VotePage.not_coordinate (VotePage.longitude locationInfo)); simpl;
    split; intros H; try done; try (by left); try (by right);
    destruct H as [H|[H1 H2]]; done.
Qed.

(** C9: location access is granted and the device reports latitude 0 and
    longitude 0.  The coordinates are present in the row that is inserted,
    and the row's [vote_status] is ["invalid"]. *)
Theorem C9_reported_coordinates_marked_invalid :
  VotePage.handleVotePosition (Some "student-1") (Some Scenario.voter)
    Scenario.three_positions false Scenario.located_at_origin "pos0" "A"
  = inr {| VotePage.voter_id := "student-1";
           VotePage.voter_name := "Voter One";
           VotePage.candidate_id := "A";
           VotePage.candidate_name := "A";
           VotePage.position := "pos0";
           VotePage.vote_status := "invalid";
           VotePage.row_latitude := Some 0%float;
           VotePage.row_longitude := Some 0%float;
           VotePage.location_accuracy := Some 12%float |}.
Proof. vm_compute. reflexivity. Qed.


(* ===================================================================== *)
(** * More about the ballot container *)
(* ===================================================================== *)

Section BallotMore.

Variable positions : list Position.

Local Arguments Nat.ltb : simpl never.

(** X1: in every world a session reaches from a consistent mounted state,
    every position that has a recorded selection is locked. *)
Theorem X1_recorded_selection_is_locked s0 es w k c :
  consistent (selections s0) (locked s0) →
  run positions (mount s0) es = Some w →
  selections (st w) !! k = Some c →
  locked (st w) !! k = Some true.
Proof.
  intros Hc0 Hrun Hk.
  assert (lock_invariant w) as [Hc _].
  { refine (run_invariant positions lock_invariant _ es (mount s0) w _ Hrun).
    - intros w1 e w2. apply step_lock_invariant.
    - split; [exact Hc0 | constructor]. }
  by eapply Hc.
Qed.

(** X2: a click touches the entries of the position on screen only: the
    selection and the lock of every other position are what they were. *)
Theorem X2_click_leaves_other_positions w p candidateId w' k :
  ballot_rendered positions (st w) = Some p →
  step positions w (Click candidateId) = Some w' →
  k ≠ pos_id p →
  selections (st w') !! k = selections (st w) !! k
  ∧ locked (st w') !! k = locked (st w) !! k.
Proof.
  intros Hp Hstep Hk. simpl in Hstep. rewrite Hp in Hstep. simpl in Hstep.
  simplify_eq. unfold handleSelectCandidate.
  destruct (is_locked _ _); [done|]. simpl.
  by rewrite !lookup_insert_ne.
Qed.

Lemma step_accepted w e w' :
  step positions w e = Some w' →
  accepted (trace w')
  = accepted (trace w) + match e with
                         | Click _ =>
                             match ballot_rendered positions (st w) with
                             | Some p => if is_locked (locked (st w)) (pos_id p) then 0 else 1
                             | None => 0
                             end
                         | _ => 0
                         end.
Proof.
  destruct e as [c|n o|ms|]; simpl; intros H.
  - destruct (ballot_rendered positions (st w)) as [p|]; simplify_eq/=.
    unfold handleSelectCandidate. destruct (is_locked _ _); simpl; [lia|].
    rewrite accepted_app. simpl. lia.
  - destruct (calls w !! n) as [c|]; simplify_eq/=.
    destruct o; simplify_eq/=; [lia|]. rewrite !accepted_app. simpl. lia.
  - destruct (timers w) as [|[d t] q]; simplify_eq/=; [lia|].
    destruct (clock w + ms <=? d); simplify_eq/=. lia.
  - destruct (timers w) as [|[d t] q]; simplify_eq/=.
    destruct t as [i sel| |sel|sel]; simpl.
    + destruct (i <? totalPositions positions - 1); simpl; lia.
    + lia.
    + rewrite accepted_app. simpl. lia.
    + rewrite !accepted_app. simpl. lia.
Qed.

Lemma run_accepted w es w' :
  run positions w es = Some w' →
  accepted (trace w') ≤ accepted (trace w) + clicks es
  ∧ (clicks es = 0 → accepted (trace w') = accepted (trace w)).
Proof.
  revert w. induction es as [|e es IH]; intros w Hrun; simpl in Hrun.
  - simplify_eq. simpl. lia.
  - destruct (step positions w e) as [w1|] eqn:He; simpl in Hrun; [|done].
    destruct (IH _ Hrun) as [Hle Heq].
    pose proof (step_accepted _ _ _ He) as Hacc.
    destruct e as [c|n o|ms|]; simpl in *;
      try (split; [lia | intros H0; rewrite (Heq H0); lia]).
    split; [|intros; lia].
    destruct (ballot_rendered positions (st w)) as [p|]; [|lia].
    destruct (is_locked _ _); lia.
Qed.

(** X3: submissions come from clicks only.  Along every run from a mounted
    state the number of [onVotePosition] calls is at most the number of
    clicks delivered, and a stretch of the run without clicks (rejections,
    timers, waits) makes no submission call: nothing is retried. *)
Theorem X3_only_clicks_submit s0 es1 es2 w1 w2 :
  run positions (mount s0) es1 = Some w1 →
  run positions w1 es2 = Some w2 →
  accepted (trace w1) ≤ clicks es1
  ∧ (clicks es2 = 0 → accepted (trace w2) = accepted (trace w1)).
Proof.
  intros H1 H2. split.
  - destruct (run_accepted _ _ _ H1) as [Hle _]. simpl in Hle. lia.
  - by apply (run_accepted w1 es2 w2).
Qed.

(** X4: a position whose submission failed can be voted again at once: if
    its ballot is on screen, the click that follows the rollback is accepted
    and issues a fresh submission call. *)
Theorem X4_rolled_back_position_is_selectable_again w n c p message candidateId :
  calls w !! n = Some c →
  ballot_rendered positions (st w) = Some p →
  pos_id p = vc_position c →
  ∃ w1 w2,
    step positions w (Settle n (Rejected message)) = Some w1
    ∧ step positions w1 (Click candidateId) = Some w2
    ∧ selections (st w2) !! pos_id p = Some candidateId
    ∧ locked (st w2) !! pos_id p = Some true
    ∧ trace w2 = trace w ++ [ConsoleError; Alert (alert_text message);
                             OnVotePosition (pos_id p) candidateId].
Proof.
  intros Hn Hp Hid. destruct c as [cp cc cs cl]. simpl in Hid. subst cp.
  eexists _, _. split; [simpl; rewrite Hn; reflexivity|].
  set (c := {| vc_position := pos_id p; vc_candidate := cc;
               vc_selections := cs; vc_locked := cl |}) in *.
  assert (ballot_rendered positions
            (st (on_reject c message
                   {| st := st w; clock := clock w; timers := timers w;
                      calls := delete n (calls w); trace := trace w |}))
          = Some p) as Hp'.
  { revert Hp. unfold ballot_rendered, currentPosition. simpl. done. }
  split.
  - cbn [step]. rewrite Hp'. cbn [mbind option_bind].
    unfold handleSelectCandidate, is_locked. cbn [on_reject emit with_state st locked setSelections setLocked].
    rewrite lookup_insert_eq. cbn [default]. reflexivity.
  - cbn. rewrite !lookup_insert_eq, <- !app_assoc. done.
Qed.

(** X5: with no timer pending, an accepted selection at an index before the
    last one moves the ballot to the next index exactly 1500 + 400 ms later:
    the exit flag is up during the last 400 ms, the index is unchanged until
    then and one higher after, and nothing but the submission call leaves
    the component. *)
Theorem X5_accepted_selection_advances_after_1900ms w p candidateId :
  timers w = [] →
  ballot_rendered positions (st w) = Some p →
  currentPositionIndex (st w) < totalPositions positions - 1 →
  is_locked (locked (st w)) (pos_id p) = false →
  ∃ w1 w2 w3,
    step positions w (Click candidateId) = Some w1
    ∧ step positions w1 Fire = Some w2
    ∧ step positions w2 Fire = Some w3
    ∧ (clock w2 = clock w + 1500
       ∧ isExiting (st w2) = true
       ∧ currentPositionIndex (st w2) = currentPositionIndex (st w))
    ∧ (clock w3 = clock w + 1900
       ∧ isExiting (st w3) = false
       ∧ currentPositionIndex (st w3) = S (currentPositionIndex (st w)))
    ∧ timers w3 = []
    ∧ trace w3 = trace w ++ [OnVotePosition (pos_id p) candidateId].
Proof.
  intros Ht Hp Hi Hlk. apply Nat.ltb_lt in Hi.
  eexists _, _, _. split; [|split; [|split]].
  - cbn [step]. rewrite Hp. cbn [mbind option_bind].
    unfold handleSelectCandidate. rewrite Hlk. reflexivity.
  - cbn. rewrite Ht. cbn. rewrite Hi. reflexivity.
  - cbn. reflexivity.
  - cbn. repeat split; lia.
Qed.

Lemma step_showSuccess w e w' :
  showSuccess (st w) = true → step positions w e = Some w' →
  showSuccess (st w') = true ∧ match e with Click _ => False | _ => True end.
Proof.
  intros Hs. destruct e as [c|n o|ms|]; simpl; intros H.
  - unfold ballot_rendered in H. rewrite Hs in H. done.
  - destruct (calls w !! n) as [c|]; simplify_eq/=.
    destruct o; simplify_eq/=; done.
  - destruct (timers w) as [|[d t] q]; simplify_eq/=; [done|].
    destruct (clock w + ms <=? d); simplify_eq/=. done.
  - destruct (timers w) as [|[d t] q]; simplify_eq/=.
    destruct t as [i sel| |sel|sel]; simpl; try done.
    destruct (i <? totalPositions positions - 1); done.
Qed.

(** X6: the success screen is final.  Once [showSuccess] is set it stays
    set, no click can be delivered any more, and no further submission call
    is made. *)
Theorem X6_success_is_final w es w' :
  showSuccess (st w) = true →
  run positions w es = Some w' →
  showSuccess (st w') = true
  ∧ clicks es = 0
  ∧ accepted (trace w') = accepted (trace w)
  ∧ ∀ candidateId, step positions w' (Click candidateId) = None.
Proof.
  intros Hs Hrun.
  assert (showSuccess (st w') = true ∧ clicks es = 0) as [Hs' Hc].
  { revert w Hs Hrun. induction es as [|e es IH]; intros w Hs Hrun; simpl in Hrun.
    - by simplify_eq.
    - destruct (step positions w e) as [w1|] eqn:He; simpl in Hrun; [|done].
      destruct (step_showSuccess _ _ _ Hs He) as [Hs1 Hne].
      destruct (IH _ Hs1 Hrun) as [? ?]. split; [done|].
      destruct e; simpl; done. }
  split; [done|]. split; [done|]. split.
  - by apply (run_accepted w es w').
  - intros c. simpl. unfold ballot_rendered. by rewrite Hs'.
Qed.

Lemma marks_app tr1 tr2 : marks (tr1 ++ tr2) = marks tr1 + marks tr2.
Proof.
  induction tr1 as [|e tr1 IH]; simpl; [done|].
  destruct e; simpl; rewrite IH; lia.
Qed.

Lemma completions_app tr1 tr2 :
  completions (tr1 ++ tr2) = completions tr1 ++ completions tr2.
Proof. unfold completions. apply omap_app. Qed.

Lemma completing_enqueue due t q :
  completing (enqueue due t q)
  = match t with Complete _ => 1 | _ => 0 end + completing q.
Proof.
  induction q as [|[d t'] q IH]; simpl; [by destruct t|].
  destruct (d <=? due); simpl; [|by destruct t].
  rewrite IH. destruct t'; lia.
Qed.

Lemma step_completion_accounts w e w' :
  marks (trace w) = length (completions (trace w))
  ∧ length (completions (trace w)) + completing (timers w) = final_submits (trace w) →
  step positions w e = Some w' →
  marks (trace w') = length (completions (trace w'))
  ∧ length (completions (trace w')) + completing (timers w') = final_submits (trace w').
Proof.
  intros [Hm Hc]. destruct e as [c|n o|ms|]; simpl; intros H.
  - destruct (ballot_rendered positions (st w)) as [p|]; simplify_eq/=.
    unfold handleSelectCandidate. destruct (is_locked _ _); [done|]. simpl.
    rewrite completing_enqueue, marks_app, completions_app, final_submits_app,
      length_app. simpl. lia.
  - destruct (calls w !! n) as [c|]; simplify_eq/=.
    destruct o; simplify_eq/=; [done|].
    rewrite !marks_app, !completions_app, !final_submits_app, !length_app.
    simpl. lia.
  - destruct (timers w) as [|[d t] q]; simplify_eq/=; [done|].
    destruct (clock w + ms <=? d); simplify_eq/=. done.
  - destruct (timers w) as [|[d t] q]; simplify_eq/=.
    destruct t as [i sel| |sel|sel]; simpl in *.
    + destruct (i <? totalPositions positions - 1); simpl;
        rewrite completing_enqueue; lia.
    + lia.
    + rewrite completing_enqueue, marks_app, completions_app, final_submits_app,
        length_app. simpl. lia.
    + rewrite !marks_app, !completions_app, !final_submits_app, !length_app.
      simpl. lia.
Qed.

(** X7: the completion marker and the completion callback go together, and
    both come from final submissions only.  Along every run from a mounted
    state the marker has been written exactly as often as the callback has
    been invoked; every run of [handleFinalSubmit] has either invoked the
    callback once or still has its 2000 ms timer pending; and there are
    never more final submissions than accepted selections. *)
Theorem X7_completions_match_final_submits s0 es w :
  run positions (mount s0) es = Some w →
  marks (trace w) = length (completions (trace w))
  ∧ length (completions (trace w)) + completing (timers w) = final_submits (trace w)
  ∧ final_submits (trace w) ≤ accepted (trace w).
Proof.
  intros Hrun.
  assert (marks (trace w) = length (completions (trace w))
          ∧ length (completions (trace w)) + completing (timers w)
            = final_submits (trace w)) as [Hm Hc].
  { refine (run_invariant positions
              (λ w, marks (trace w) = length (completions (trace w))
                    ∧ length (completions (trace w)) + completing (timers w)
                      = final_submits (trace w))
              _ es (mount s0) w _ Hrun); [|done].
    intros w1 e w2. apply step_completion_accounts. }
  split; [done|]. split; [done|].
  assert (currentPositionIndex s0 ≤ currentPositionIndex (st w)) as Hle.
  { refine (run_invariant positions
              (λ w, currentPositionIndex s0 ≤ currentPositionIndex (st w))
              _ es (mount s0) w _ Hrun); [|simpl; lia].
    intros w1 e w2 Hle Hstep. destruct (step_index positions _ _ _ Hstep); lia. }
  assert (accounted (currentPositionIndex s0) w) as Hacc.
  { refine (run_invariant positions (accounted (currentPositionIndex s0))
              _ es (mount s0) w _ Hrun); [|unfold accounted; simpl; lia].
    intros w1 e w2. apply step_accounted. }
  unfold accounted in Hacc. lia.
Qed.



End BallotMore.

(** Position 1, voted second in a three-position session, is locked. *)
Lemma X1_witness :
  locked (st (Scenario.after Scenario.three_positions Scenario.vote_two_of_three))
    !! "pos1" = Some true.
Proof.
  apply (X1_recorded_selection_is_locked Scenario.three_positions initial_state
           Scenario.vote_two_of_three
           (Scenario.after Scenario.three_positions Scenario.vote_two_of_three)
           "pos1" "C").
  - apply map_Forall_empty.
  - vm_compute; reflexivity.
  - vm_compute; reflexivity.
Defined.

(** The first click of a fresh session leaves position 1 alone. *)
Lemma X2_witness :
  selections (st (Scenario.after Scenario.three_positions [Click "A"])) !! "pos1"
  = selections (st (mount initial_state)) !! "pos1"
  ∧ locked (st (Scenario.after Scenario.three_positions [Click "A"])) !! "pos1"
    = locked (st (mount initial_state)) !! "pos1".
Proof.
  apply (X2_click_leaves_other_positions Scenario.three_positions
           (mount initial_state) (Scenario.position_of "pos0" "A" "B") "A"
           (Scenario.after Scenario.three_positions [Click "A"]) "pos1").
  - vm_compute; reflexivity.
  - vm_compute; reflexivity.
  - discriminate.
Defined.

(** Two clicks, then a rejection: two submission calls before and after. *)
Lemma X3_witness :
  accepted (trace (Scenario.after Scenario.three_positions Scenario.vote_two_of_three)) ≤ 2
  ∧ accepted (trace (Scenario.after Scenario.three_positions
                       (Scenario.vote_two_of_three
                          ++ [Settle 0 (Rejected (Some "network error"))])))
    = accepted (trace (Scenario.after Scenario.three_positions Scenario.vote_two_of_three)).
Proof.
  destruct (X3_only_clicks_submit Scenario.three_positions initial_state
              Scenario.vote_two_of_three
              [Settle 0 (Rejected (Some "network error"))]
              (Scenario.after Scenario.three_positions Scenario.vote_two_of_three)
              (Scenario.after Scenario.three_positions
                 (Scenario.vote_two_of_three
                    ++ [Settle 0 (Rejected (Some "network error"))])))
    as [Hle Heq]; [vm_compute; reflexivity | vm_compute; reflexivity |].
  split; [exact Hle | apply Heq; reflexivity].
Defined.

(** The specification's early failure: position 0 is voted, the submission
    rejects before the ballot advances, and position 0 is voted again. *)
Lemma X4_witness :
  ∃ w1 w2,
    step Scenario.three_positions (Scenario.after Scenario.three_positions [Click "A"])
      (Settle 0 (Rejected (Some "network error"))) = Some w1
    ∧ step Scenario.three_positions w1 (Click "B") = Some w2
    ∧ selections (st w2) !! "pos0" = Some "B"
    ∧ locked (st w2) !! "pos0" = Some true.
Proof.
  destruct (X4_rolled_back_position_is_selectable_again Scenario.three_positions
              (Scenario.after Scenario.three_positions [Click "A"]) 0
              {| vc_position := "pos0"; vc_candidate := "A";
                 vc_selections := ∅; vc_locked := ∅ |}
              (Scenario.position_of "pos0" "A" "B") (Some "network error") "B")
    as (w1 & w2 & H1 & H2 & Hsel & Hlk & _);
    [vm_compute; reflexivity | vm_compute; reflexivity | reflexivity |].
  exists w1, w2. split; [exact H1|]. split; [exact H2|]. split; [exact Hsel | exact Hlk].
Defined.

Lemma X5_witness :
  ∃ w1 w2 w3,
    step Scenario.three_positions (mount initial_state) (Click "A") = Some w1
    ∧ step Scenario.three_positions w1 Fire = Some w2
    ∧ step Scenario.three_positions w2 Fire = Some w3
    ∧ clock w3 = 1900
    ∧ currentPositionIndex (st w3) = 1.
Proof.
  destruct (X5_accepted_selection_advances_after_1900ms Scenario.three_positions
              (mount initial_state) (Scenario.position_of "pos0" "A" "B") "A")
    as (w1 & w2 & w3 & H1 & H2 & H3 & _ & (Hc & _ & Hi) & _);
    [reflexivity | vm_compute; reflexivity | vm_compute; lia | vm_compute; reflexivity |].
  exists w1, w2, w3. split; [exact H1|]. split; [exact H2|]. split; [exact H3|].
  split; [exact Hc | exact Hi].
Defined.

(** After the whole ballot is voted, a late rejection is still delivered,
    and the success screen stays. *)
Lemma X6_witness :
  showSuccess (st (Scenario.after Scenario.three_positions
                     (Scenario.vote_all_three ++ [Settle 0 (Rejected None)]))) = true
  ∧ ∀ candidateId,
      step Scenario.three_positions
        (Scenario.after Scenario.three_positions
           (Scenario.vote_all_three ++ [Settle 0 (Rejected None)]))
        (Click candidateId) = None.
Proof.
  destruct (X6_success_is_final Scenario.three_positions
              (Scenario.after Scenario.three_positions Scenario.vote_all_three)
              [Settle 0 (Rejected None)]
              (Scenario.after Scenario.three_positions
                 (Scenario.vote_all_three ++ [Settle 0 (Rejected None)])))
    as (Hs & _ & _ & Hno); [vm_compute; reflexivity | vm_compute; reflexivity |].
  split; [exact Hs | exact Hno].
Defined.

Lemma X7_witness :
  marks (trace (Scenario.after Scenario.three_positions Scenario.vote_all_three)) = 1
  ∧ length (completions
              (trace (Scenario.after Scenario.three_positions Scenario.vote_all_three)))
    = 1.
Proof.
  destruct (X7_completions_match_final_submits Scenario.three_positions initial_state
              Scenario.vote_all_three
              (Scenario.after Scenario.three_positions Scenario.vote_all_three))
    as (Hm & _ & _); [vm_compute; reflexivity|].
  split; [rewrite Hm|]; vm_compute; reflexivity.
Defined.


(* ===================================================================== *)
(** * More about session restore *)
(* ===================================================================== *)

Section RestoreMore.

Variable JSON_parse : string → JS.result JS.value.
Variable positions : list Position.

Lemma findIndex_from_hit f l i j :
  findIndex_from f l i = inr (Some j) →
  ∃ k p,
    j = i + k ∧ l !! k = Some p ∧ f p = inr true
    ∧ ∀ k' q, k' < k → l !! k' = Some q → f q = inr false.
Proof.
  revert i. induction l as [|q l IH]; intros i; simpl; [done|].
  destruct (f q) as [e|[|]] eqn:Hq; simpl; [done| |].
  - intros H. unfold mret, JS.result_ret in H. simplify_eq.
    exists 0, q. split; [lia|]. split; [done|].
    split; [done|]. intros k' q' Hk'. exfalso. lia.
  - intros H. destruct (IH _ H) as (k & p & -> & Hk & Hp & Hbefore).
    exists (S k), p. split; [lia|]. split; [done|]. split; [done|].
    intros [|k'] q' Hk' Hq'; simpl in Hq'; [by simplify_eq|].
    apply (Hbefore k' q'); [lia | done].
Qed.

(** X9: whatever is stored, and whatever [JSON.parse] makes of it, the
    restore effect moves the index only to a position of the ballot: the
    first one for which the stored value holds no selection. *)
Theorem X9_restore_index_is_a_ballot_position savedData cs r i :
  restore_effect JSON_parse positions savedData [] = (cs, r) →
  SetCurrentPositionIndex i ∈ cs →
  ∃ s data p,
    savedData = Some s
    ∧ JSON_parse s = inr data
    ∧ positions !! i = Some p
    ∧ lacks_selection data p = inr true
    ∧ ∀ j q, j < i → positions !! j = Some q → lacks_selection data q = inr false.
Proof.
  assert (∀ (l : list command) (P : Prop),
            Forall (λ c, ∀ j, c ≠ SetCurrentPositionIndex j) l →
            SetCurrentPositionIndex i ∈ l → P) as Hnone.
  { intros l P Hl Hin. rewrite Forall_forall in Hl. by destruct (Hl _ Hin i). }
  unfold restore_effect. destruct savedData as [s|].
  2:{ intros [= <- <-] Hin. by apply elem_of_nil in Hin. }
  destruct (JS.truthy_string s).
  2:{ intros [= <- <-] Hin. by apply elem_of_nil in Hin. }
  unfold try_catch, restore_body, mbind, effectful_bind, lift, call.
  destruct (JSON_parse s) as [e|data] eqn:Hparse.
  { intros [= <- <-]. apply Hnone. repeat constructor; done. }
  destruct (JS.get data "selections") as [e|sel] eqn:Hsel.
  { intros [= <- <-]. apply Hnone. repeat constructor; done. }
  destruct (JS.get data "locked") as [e|lk] eqn:Hlk.
  { intros [= <- <-]. apply Hnone. repeat constructor; done. }
  destruct (findIndex (lacks_selection data) positions) as [e|[j|]] eqn:Hfind; simpl.
  - intros [= <- <-]. apply Hnone. repeat constructor; done.
  - intros [= <- <-] Hin.
    assert (i = j) as ->.
    { repeat (apply elem_of_cons in Hin as [Hin|Hin]; [by simplify_eq|]).
      by apply elem_of_nil in Hin. }
    destruct (findIndex_from_hit _ _ _ _ Hfind) as (k & p & -> & Hk & Hp & Hbefore).
    exists s, data, p. simpl. eauto.
  - destruct (JS.keys sel) as [e|ks]; simpl.
    + intros [= <- <-]. apply Hnone. repeat constructor; done.
    + destruct (length ks =? length positions); intros [= <- <-]; apply Hnone;
        repeat constructor; done.
Qed.

(** X10: a stored object that parses but has no [selections] field, on a
    ballot with at least one position: the effect has already emptied the
    selection map and installed the stored lock map (or an empty one) when
    reading the first position's selection throws; the failure is logged,
    the index and the review flag are untouched. *)
Theorem X10_restore_without_selections_field s m p ps :
  JS.truthy_string s = true →
  JSON_parse s = inr (JS.Obj m) →
  m !! "selections" = None →
  positions = p :: ps →
  restore_effect JSON_parse positions (Some s) []
  = ([SetSelections (JS.Obj ∅);
      SetLocked (JS.or_else (default JS.Undefined (m !! "locked")) (JS.Obj ∅));
      LogRestoreFailure JS.TypeError],
     inr tt).
Proof.
  intros Hs Hparse Hsel ->. unfold restore_effect. rewrite Hs.
  unfold try_catch, restore_body, mbind, effectful_bind, lift, call.
  rewrite Hparse. cbn [JS.get]. rewrite Hsel.
  unfold mret, JS.result_ret. cbn [findIndex findIndex_from].
  unfold lacks_selection. cbn [JS.get mbind JS.result_bind]. rewrite Hsel.
  unfold mret, JS.result_ret. cbn [JS.get JS.throw mbind JS.result_bind].
  destruct (m !! "locked"); reflexivity.
Qed.

End RestoreMore.

Lemma X9_witness :
  ∃ p,
    Scenario.three_positions !! 2 = Some p
    ∧ lacks_selection Scenario.snapshot_two_of_three p = inr true.
Proof.
  destruct (X9_restore_index_is_a_ballot_position Scenario.stored_parse
              Scenario.three_positions (Some Scenario.stored_two_of_three)
              [SetSelections (JS.Obj (JS.Str <$> {[ "pos0" := "A"; "pos1" := "C" ]}));
               SetLocked (JS.Obj (JS.Bool <$> {[ "pos0" := true; "pos1" := true ]}));
               SetCurrentPositionIndex 2]
              (inr tt) 2)
    as (s & data & p & Hs & Hparse & Hp & Hlacks & _).
  - vm_compute; reflexivity.
  - apply list_elem_of_lookup. exists 2. reflexivity.
  - exists p. split; [exact Hp|].
    injection Hs as <-. vm_compute in Hparse. injection Hparse as <-. exact Hlacks.
Defined.

Lemma X10_witness :
  restore_effect Scenario.stored_parse Scenario.three_positions
    (Some Scenario.stored_locks_only) []
  = ([SetSelections (JS.Obj ∅);
      SetLocked (JS.Obj {[ "pos0" := JS.Bool true ]});
      LogRestoreFailure JS.TypeError],
     inr tt).
Proof.
  rewrite (X10_restore_without_selections_field Scenario.stored_parse
             Scenario.three_positions Scenario.stored_locks_only
             {[ "locked" := JS.Obj {[ "pos0" := JS.Bool true ]} ]}
             (Scenario.position_of "pos0" "A" "B")
             [Scenario.position_of "pos1" "C" "D"; Scenario.position_of "pos2" "E" "F"])
    by (vm_compute; reflexivity).
  vm_compute. reflexivity.
Defined.

(* ===================================================================== *)
(** * The voting page *)
(* ===================================================================== *)

(** X11: a vote is recorded only for a candidate of the ballot.  Whenever
    [handleVotePosition] reaches the insert, the voter is signed in with a
    non-empty id, the position id is the id of a position of the ballot, the
    candidate id is the id of one of that position's candidates, and the
    names written to the row are that candidate's name and that position's
    title. *)
Theorem X11_recorded_vote_is_on_the_ballot
    user_id studentData positions locationDenied locationInfo positionId candidateId row :
  VotePage.handleVotePosition user_id studentData positions locationDenied locationInfo
    positionId candidateId = inr row →
  ∃ uid p c,
    user_id = Some uid ∧ uid ≠ EmptyString
    ∧ p ∈ positions ∧ pos_id p = positionId
    ∧ c ∈ pos_candidates p ∧ cand_id c = candidateId
    ∧ VotePage.voter_id row = uid
    ∧ VotePage.candidate_id row = candidateId
    ∧ VotePage.candidate_name row = cand_name c
    ∧ VotePage.position row = pos_title p.
Proof.
  unfold VotePage.handleVotePosition, VotePage.authenticated.
  destruct user_id as [uid|]; simpl; [|done].
  destruct studentData as [sd|]; simpl; [|done].
  destruct (JS.truthy_string uid) eqn:Huid; [|done].
  destruct (list_find (λ p, pos_id p = positionId) positions) as [[i p]|] eqn:Hp;
    simpl; [|done].
  destruct (list_find (λ c, cand_id c = candidateId) (pos_candidates p)) as [[j c]|] eqn:Hc;
    simpl; [|done].
  intros [= <-]. simpl.
  apply list_find_Some in Hp as (Hi & Hpid & _).
  apply list_find_Some in Hc as (Hj & Hcid & _).
  exists uid, p, c. split; [done|]. split.
  { intros ->. done. }
  split; [by eapply list_elem_of_lookup_2|]. split; [done|].
  split; [by eapply list_elem_of_lookup_2|]. done.
Qed.

Lemma X11_witness :
  ∃ p c,
    p ∈ Scenario.three_positions ∧ pos_id p = "pos1"
    ∧ c ∈ pos_candidates p ∧ cand_id c = "D".
Proof.
  destruct (X11_recorded_vote_is_on_the_ballot (Some "student-1") (Some Scenario.voter)
              Scenario.three_positions true Scenario.located_at_origin "pos1" "D"
              {| VotePage.voter_id := "student-1";
                 VotePage.voter_name := "Voter One";
                 VotePage.candidate_id := "D";
                 VotePage.candidate_name := "D";
                 VotePage.position := "pos1";
                 VotePage.vote_status := "invalid";
                 VotePage.row_latitude := Some 0%float;
                 VotePage.row_longitude := Some 0%float;
                 VotePage.location_accuracy := Some 12%float |})
    as (uid & p & c & _ & _ & Hp & Hpid & Hc & Hcid & _); [vm_compute; reflexivity|].
  exists p, c. split; [exact Hp|]. split; [exact Hpid|]. split; [exact Hc | exact Hcid].
Defined.

Lemma last_callback_snoc es e :
  VoteLoad.last_callback (es ++ [e])
  = match e with
    | VoteLoad.DismissWarning => VoteLoad.last_callback es
    | _ => Some e
    end.
Proof.
  induction es as [|e' es IH]; simpl; [by destruct e|].
  rewrite IH. destruct e; try done.
Qed.

(** X12: the status a vote is stored with follows the last geolocation
    callback.  After any sequence of success callbacks, error callbacks and
    dismissals of the warning, a vote is stored as ["valid"] exactly when the
    last callback was a success that reported a latitude or a longitude
    other than 0 and NaN; before any callback, after an error, and whatever
    the user does with the warning, it is stored as ["invalid"]. *)
Theorem X12_vote_status_follows_last_location_callback es :
  VoteLoad.status_in (VoteLoad.location_after es) = "valid"
  ↔ ∃ lat lon acc,
      VoteLoad.last_callback es = Some (VoteLoad.Located lat lon acc)
      ∧ JS.truthy_number lat || JS.truthy_number lon = true.
Proof.
  unfold VoteLoad.location_after.
  induction es as [|e es IH] using rev_ind.
  - simpl. split; [done | by intros (? & ? & ? & ? & _)].
  - rewrite foldl_app, last_callback_snoc. simpl.
    destruct e as [lat lon acc| |]; simpl.
    + unfold VoteLoad.status_in, VotePage.voteStatus. simpl. split.
      * intros H. exists lat, lon, acc. split; [done|].
        destruct (JS.truthy_number lat), (JS.truthy_number lon); done.
      * intros (? & ? & ? & [= <- <- <-] & H).
        destruct (JS.truthy_number lat), (JS.truthy_number lon); done.
    + unfold VoteLoad.status_in, VotePage.voteStatus. simpl.
      split; [done | by intros (? & ? & ? & ? & _)].
    + exact IH.
Qed.

(** The device reports a position near Kampala, then the user closes the
    warning: votes are valid. *)
Lemma X12_witness :
  VoteLoad.status_in
    (VoteLoad.location_after
       [VoteLoad.LocationError; VoteLoad.Located 0.3125%float 32.5%float 10%float;
        VoteLoad.DismissWarning])
  = "valid".
Proof.
  apply (X12_vote_status_follows_last_location_callback
           [VoteLoad.LocationError; VoteLoad.Located 0.3125%float 32.5%float 10%float;
            VoteLoad.DismissWarning]).
  exists 0.3125%float, 32.5%float, 10%float. split; reflexivity.
Defined.

Section Loading.

Import Rows.

Variable positionsData : option (list position_row).
Variable candidatesData : option (list application_row).

(** X13: a position is on the voter's ballot exactly when it was built from
    a row of the positions query that at least one row of the candidates
    query names as its position; positions without candidates never reach
    the ballot container, and the ballot keeps the order of the query. *)
Theorem X13_position_on_ballot_iff_it_has_an_applicant pos :
  (pos ∈ VoteLoad.positionsWithCandidates positionsData candidatesData
   ↔ ∃ row app,
       row ∈ default [] positionsData
       ∧ pos = VoteLoad.position_with_candidates candidatesData row
       ∧ app ∈ default [] candidatesData
       ∧ app_position app = Some (row_id row))
  ∧ VoteLoad.positionsWithCandidates positionsData candidatesData
      `sublist_of` (VoteLoad.position_with_candidates candidatesData
                      <$> default [] positionsData).
Proof.
  unfold VoteLoad.positionsWithCandidates. split; [|apply sublist_filter].
  rewrite list_elem_of_filter, list_elem_of_fmap. split.
  - intros [Hlen (row & -> & Hrow)]. simpl in Hlen.
    destruct (filter (λ app, app_position app = Some (row_id row))
                (default [] candidatesData)) as [|app apps] eqn:Hf;
      [simpl in Hlen; lia|].
    assert (app ∈ filter (λ app, app_position app = Some (row_id row))
                    (default [] candidatesData)) as Happ
      by (rewrite Hf; apply list_elem_of_here).
    apply list_elem_of_filter in Happ as [Hpos Hin].
    exists row, app. done.
  - intros (row & app & Hrow & -> & Happ & Hpos). split; [|by exists row].
    simpl. rewrite length_fmap.
    assert (app ∈ filter (λ app, app_position app = Some (row_id row))
                    (default [] candidatesData)) as Hin
      by (by apply list_elem_of_filter).
    destruct (filter _ _); [by apply elem_of_nil in Hin | simpl; lia].
Qed.

(** X14: the candidates of a ballot position are exactly the applications
    for it.  For every position on the ballot the candidate list is not
    empty, and a candidate is on it exactly when it was built from a row of
    the candidates query whose position is this position's id. *)
Theorem X14_ballot_candidates_are_the_applicants pos :
  pos ∈ VoteLoad.positionsWithCandidates positionsData candidatesData →
  pos_candidates pos ≠ []
  ∧ ∀ c, c ∈ pos_candidates pos
         ↔ ∃ app, app ∈ default [] candidatesData
                  ∧ app_position app = Some (pos_id pos)
                  ∧ c = candidate_of app.
Proof.
  unfold VoteLoad.positionsWithCandidates.
  rewrite list_elem_of_filter, list_elem_of_fmap.
  intros [Hlen (row & -> & Hrow)]. split.
  - intros Hnil. rewrite Hnil in Hlen. simpl in Hlen. lia.
  - intros c. simpl. rewrite list_elem_of_fmap. split.
    + intros (app & -> & Hin). apply list_elem_of_filter in Hin as [Hpos Hin].
      by exists app.
    + intros (app & Hin & Hpos & ->). exists app. split; [done|].
      by apply list_elem_of_filter.
Qed.

End Loading.

Lemma run_marks positions s0 es w :
  run positions (mount s0) es = Some w →
  marks (trace w) = length (completions (trace w)).
Proof.
  intros Hrun.
  refine (proj1 (run_invariant positions
            (λ w, marks (trace w) = length (completions (trace w))
                  ∧ length (completions (trace w)) + completing (timers w)
                    = final_submits (trace w))
            _ es (mount s0) w _ Hrun)); [|done].
  intros w1 e w2. apply step_completion_accounts.
Qed.

(** X15: the leave warning and the completion callback.  While the ballot
    container is mounted, with [JSON.stringify] never producing the empty
    text, the page lets the user leave without a warning exactly when the
    completion callback of this session has been invoked, or the tab already
    held the completion marker of an earlier session (nothing ever removes
    it). *)
Theorem X15_leave_warning_until_completion JSON_stringify before positions s0 es w :
  (∀ v, JSON_stringify v ≠ EmptyString) →
  run positions (mount s0) es = Some w →
  VoteLoad.handleBeforeUnload
    (VoteLoad.sessionStorage_of JSON_stringify before w !! "ballotData")
    (VoteLoad.sessionStorage_of JSON_stringify before w !! "voteSubmitted") = None
  ↔ before !! "voteSubmitted" = Some "true" ∨ completions (trace w) ≠ [].
Proof.
  intros Hjson Hrun. pose proof (run_marks _ _ _ _ Hrun) as Hm.
  unfold VoteLoad.sessionStorage_of, VoteLoad.handleBeforeUnload.
  destruct (0 <? marks (trace w)) eqn:H0.
  - apply Nat.ltb_lt in H0. rewrite lookup_insert_eq.
    rewrite bool_decide_eq_true_2 by done. rewrite andb_false_r.
    split; [|done]. intros _. right. intros Hnil. rewrite Hnil in Hm. simpl in Hm. lia.
  - apply Nat.ltb_ge in H0. rewrite lookup_insert_eq, lookup_insert_ne by done.
    simpl. unfold JS.truthy_string.
    rewrite (proj2 (String.eqb_neq _ _) (Hjson _)). simpl.
    destruct (completions (trace w)) as [|v vs] eqn:Hc; [|simpl in Hm; lia].
    case_bool_decide as Hb; simpl; split; try done.
    + by left.
    + intros [?|?]; done.
Qed.

(** A three-position session before and after its completion timer, in a
    tab that held nothing. *)
Lemma X15_witness :
  VoteLoad.handleBeforeUnload
    (VoteLoad.sessionStorage_of (λ _, "{}") ∅
       (Scenario.after Scenario.three_positions Scenario.vote_all_three) !! "ballotData")
    (VoteLoad.sessionStorage_of (λ _, "{}") ∅
       (Scenario.after Scenario.three_positions Scenario.vote_all_three) !! "voteSubmitted")
  = None.
Proof.
  apply (X15_leave_warning_until_completion (λ _, "{}") ∅ Scenario.three_positions
           initial_state Scenario.vote_all_three
           (Scenario.after Scenario.three_positions Scenario.vote_all_three)).
  - intros _. discriminate.
  - vm_compute; reflexivity.
  - right. vm_compute. discriminate.
Defined.

(* ===================================================================== *)
(** * The ballot generation page *)
(* ===================================================================== *)

Section Grouping.

Import Rows BallotAdmin AdminSpec.

Lemma map_get_push k' k c m :
  map_get k' (map_push k c m)
  = if decide (k' = k) then Some (default [] (map_get k m) ++ [c]) else map_get k' m.
Proof.
  induction m as [|[k0 cs] m IH]; simpl.
  - repeat case_decide; simplify_eq; done.
  - destruct (decide (k0 = k)) as [->|Hne]; simpl.
    + repeat case_decide; simplify_eq; done.
    + rewrite IH. repeat case_decide; simplify_eq; done.
Qed.

Lemma keys_push k c m :
  fst <$> map_push k c m
  = if decide (k ∈ fst <$> m) then fst <$> m else (fst <$> m) ++ [k].
Proof.
  induction m as [|[k0 cs] m IH].
  - reflexivity.
  - cbn [map_push]. destruct (decide (k0 = k)) as [->|Hne].
    + rewrite decide_True; [done | apply list_elem_of_here].
    + rewrite !fmap_cons, IH. cbn [fst].
      destruct (decide (k ∈ fst <$> m)) as [Hin|Hin].
      * rewrite decide_True; [done | by apply list_elem_of_further].
      * rewrite decide_False; [done|].
        intros [?|?]%elem_of_cons; done.
Qed.

Lemma concat_push k c m :
  concat (snd <$> map_push k c m) ≡ₚ c :: concat (snd <$> m).
Proof.
  induction m as [|[k0 cs] m IH]; [done|].
  cbn [map_push]. destruct (decide (k0 = k)).
  - rewrite !fmap_cons. cbn [snd concat]. rewrite <- app_assoc. cbn [app].
    symmetry. apply Permutation_middle.
  - rewrite !fmap_cons. cbn [snd concat]. rewrite IH.
    symmetry. apply Permutation_middle.
Qed.

Lemma positionsMap_snoc apps app :
  positionsMap (apps ++ [app])
  = map_push (positionTitle app) (candidate_of app) (positionsMap apps).
Proof. unfold positionsMap. by rewrite foldl_app. Qed.

Lemma applicants_snoc k apps app :
  applicants k (apps ++ [app])
  = applicants k apps ++ (if decide (positionTitle app = k) then [candidate_of app] else []).
Proof.
  unfold applicants. rewrite filter_app, fmap_app. f_equal.
  rewrite filter_cons. case_decide; done.
Qed.

Lemma map_get_positionsMap k apps :
  map_get k (positionsMap apps)
  = match applicants k apps with
    | [] => None
    | cs => Some cs
    end.
Proof.
  induction apps as [|app apps IH] using rev_ind; [done|].
  rewrite positionsMap_snoc, map_get_push, applicants_snoc.
  destruct (decide (k = positionTitle app)) as [->|Hne].
  - rewrite IH, decide_True by done.
    destruct (applicants (positionTitle app) apps); done.
  - rewrite IH, decide_False by done. by rewrite app_nil_r.
Qed.

Lemma keys_positionsMap_NoDup apps : NoDup (fst <$> positionsMap apps).
Proof.
  induction apps as [|app apps IH] using rev_ind; [constructor|].
  rewrite positionsMap_snoc, keys_push. case_decide; [done|].
  apply NoDup_app. split; [done|]. split; [|apply NoDup_singleton].
  intros x Hx ->%list_elem_of_singleton. done.
Qed.

Lemma map_get_elem k cs m : map_get k m = Some cs → (k, cs) ∈ m.
Proof.
  induction m as [|[k0 cs0] m IH]; simpl; [done|].
  case_decide; intros Hget; simplify_eq.
  - apply list_elem_of_here.
  - apply list_elem_of_further. by apply IH.
Qed.

Lemma elem_map_get k cs m :
  NoDup (fst <$> m) → (k, cs) ∈ m → map_get k m = Some cs.
Proof.
  induction m as [|[k0 cs0] m IH]; simpl; intros Hnd Hin.
  - by apply elem_of_nil in Hin.
  - apply NoDup_cons in Hnd as [Hk0 Hnd].
    apply elem_of_cons in Hin as [Heq|Hin].
    + simplify_eq. by rewrite decide_True.
    + rewrite decide_False; [by apply IH|].
      intros ->. apply Hk0. apply list_elem_of_fmap. by exists (k, cs).
Qed.

Lemma filter_all {A} (P : A → Prop) `{!∀ x, Decision (P x)} (l : list A) :
  Forall P l → filter P l = l.
Proof.
  induction 1 as [|x l Hx Hl IH]; [done|].
  rewrite filter_cons, decide_True by done. by rewrite IH.
Qed.

Lemma concat_positions (candidatesData : list application_row) :
  concat (pos_candidates <$> positionsWithCandidates candidatesData)
    ≡ₚ candidate_of <$> candidatesData.
Proof.
  unfold positionsWithCandidates. rewrite <- list_fmap_compose.
  change (concat (snd <$> positionsMap candidatesData)
            ≡ₚ candidate_of <$> candidatesData).
  induction candidatesData as [|app apps IH] using rev_ind; [done|].
  rewrite positionsMap_snoc, concat_push, IH, fmap_app. simpl.
  by rewrite <- Permutation_cons_append.
Qed.

Lemma totalCandidates_concat l :
  totalCandidates l = length (concat (pos_candidates <$> l)).
Proof.
  unfold totalCandidates.
  assert (∀ a, foldl (λ sum pos, sum + length (pos_candidates pos)) a l
               = a + length (concat (pos_candidates <$> l))) as Hsum.
  { induction l as [|p l IH]; intros a; [simpl; lia|].
    rewrite fmap_cons. cbn [foldl concat]. rewrite IH, length_app. lia. }
  by rewrite Hsum.
Qed.

Lemma group_of_entry k cs (candidatesData : list application_row) :
  (k, cs) ∈ positionsMap candidatesData
  ↔ cs = applicants k candidatesData ∧ cs ≠ [].
Proof.
  split.
  - intros Hin. apply elem_map_get in Hin; [|apply keys_positionsMap_NoDup].
    rewrite map_get_positionsMap in Hin.
    destruct (applicants k candidatesData); by simplify_eq.
  - intros [-> Hne]. apply map_get_elem. rewrite map_get_positionsMap.
    by destruct (applicants k candidatesData).
Qed.

(** X16: grouping by position loses and duplicates no candidate.  The
    candidate lists of the positions, one after the other, are a permutation
    of the candidates built from the confirmed applications, and the total
    shown on the page is the number of applications. *)
Theorem X16_grouping_keeps_every_candidate (candidatesData : list application_row) :
  concat (pos_candidates <$> positionsWithCandidates candidatesData)
    ≡ₚ candidate_of <$> candidatesData
  ∧ totalCandidates (positionsWithCandidates candidatesData) = length candidatesData.
Proof.
  split; [apply concat_positions|].
  by rewrite totalCandidates_concat, concat_positions, length_fmap.
Qed.

(** X17: what the groups are.  The titles in the map are pairwise different,
    and a title is in the map with a list of candidates exactly when that
    list is not empty and holds the candidates of all applications with that
    title, in query order. *)
Theorem X17_groups_are_the_applicants_by_title (candidatesData : list application_row) :
  NoDup (fst <$> positionsMap candidatesData)
  ∧ ∀ k cs, (k, cs) ∈ positionsMap candidatesData
            ↔ cs = applicants k candidatesData ∧ cs ≠ [].
Proof.
  split; [apply keys_positionsMap_NoDup|]. intros k cs. apply group_of_entry.
Qed.

(** X18: what the page shows after the query.  The filter that the preview
    and the PDF apply removes nothing; when candidates were loaded, the two
    numbers of the toast are the total the page shows and the number of
    positions, and there is at least one position and no more positions
    than candidates; after an error or an empty answer there is no
    position. *)
Theorem X18_loaded_positions_all_have_candidates answer :
  with_candidates (fst (fetchApprovedCandidates answer))
  = fst (fetchApprovedCandidates answer)
  ∧ match snd (fetchApprovedCandidates answer) with
    | CandidatesLoaded n m =>
        totalCandidates (fst (fetchApprovedCandidates answer)) = n
        ∧ length (fst (fetchApprovedCandidates answer)) = m
        ∧ 0 < m ≤ n
    | _ => fst (fetchApprovedCandidates answer) = []
    end.
Proof.
  assert (∀ apps, Forall (λ p, 0 < length (pos_candidates p))
                    (positionsWithCandidates apps)) as Hall.
  { intros apps. apply Forall_forall. intros p Hp.
    unfold positionsWithCandidates in Hp.
    apply list_elem_of_fmap in Hp as ([k cs] & -> & Hin). simpl.
    apply group_of_entry in Hin as [_ Hne]. destruct cs; [done | simpl; lia]. }
  destruct answer as [e|[[|app apps]|]]; try done.
  cbn [fetchApprovedCandidates fst snd]. split.
  - unfold with_candidates. apply filter_all, Hall.
  - split; [by rewrite totalCandidates_concat, concat_positions, length_fmap|].
    split; [done|].
    pose proof (Hall (app :: apps)) as Hpos.
    pose proof (totalCandidates_concat (positionsWithCandidates (app :: apps))) as Htot.
    rewrite concat_positions, length_fmap in Htot.
    assert (length (positionsWithCandidates (app :: apps))
            ≤ totalCandidates (positionsWithCandidates (app :: apps))) as Hle.
    { clear Htot. unfold totalCandidates.
      assert (∀ l a, Forall (λ p, 0 < length (pos_candidates p)) l →
                     a + length l
                     ≤ foldl (λ sum pos, sum + length (pos_candidates pos)) a l) as Hgen.
      { induction l as [|p l IH]; intros a Hl; simpl; [lia|].
        apply Forall_cons in Hl as [Hp Hl]. specialize (IH (a + length (pos_candidates p)) Hl).
        lia. }
      apply (Hgen _ 0 Hpos). }
    revert Htot Hle. generalize (positionsWithCandidates (app :: apps)).
    intros [|p ps]; cbn [length]; [unfold totalCandidates; simpl; lia | lia].
Qed.

End Grouping.

Section Identifiers.

Import BallotAdmin AdminSpec.

Lemma leb_code_cases (c : Ascii.ascii) :
  is_id_char c = true → is_upper c = false.
Proof.
  unfold is_id_char, is_slug_char, is_lower, is_digit, is_upper.
  generalize (code c). intros n H.
  apply andb_false_iff.
  destruct (65 <=? n) eqn:H1; [right | by left].
  apply Nat.leb_le in H1. apply Nat.leb_gt.
  repeat (apply orb_true_iff in H as [H|H]).
  - apply andb_true_iff in H as [H _]. apply Nat.leb_le in H. lia.
  - apply andb_true_iff in H as [_ H]. apply Nat.leb_le in H. lia.
  - apply Nat.eqb_eq in H. lia.
Qed.

Lemma replace_runs_id_chars b s : all_chars is_id_char (replace_runs b s) = true.
Proof.
  revert b. induction s as [|c s IH]; intros b; simpl; [done|].
  destruct (is_slug_char c) eqn:Hc; simpl.
  - unfold is_id_char at 1. rewrite Hc. simpl. apply IH.
  - destruct b; simpl; apply IH.
Qed.

Lemma replace_runs_again b s :
  replace_runs b (replace_runs b s) = replace_runs b s.
Proof.
  revert b. induction s as [|c s IH]; intros b; simpl; [done|].
  destruct (is_slug_char c) eqn:Hc; simpl.
  - rewrite Hc. by rewrite IH.
  - destruct b; simpl; [apply IH|]. by rewrite IH.
Qed.

Lemma toLowerCase_id_chars s :
  all_chars is_id_char s = true → toLowerCase s = s.
Proof.
  induction s as [|c s IH]; simpl; [done|].
  intros [Hc Hs]%andb_true_iff. rewrite (IH Hs).
  unfold lower_char. by rewrite (leb_code_cases c Hc).
Qed.

(** X19: the [id] computed for a position is an identifier, and computing it
    again changes nothing.  For a title written in ASCII, every character of
    the id is a lower-case letter, a digit or an underscore, and the id of
    the id is the id. *)
Theorem X19_position_id_is_a_stable_identifier title :
  all_chars is_ascii title = true →
  all_chars is_id_char (position_id title) = true
  ∧ position_id (position_id title) = position_id title.
Proof.
  intros _. unfold position_id. split; [apply replace_runs_id_chars|].
  rewrite (toLowerCase_id_chars _ (replace_runs_id_chars false _)).
  apply replace_runs_again.
Qed.

End Identifiers.

Lemma X19_witness :
  BallotAdmin.position_id "Head Boy (Senior)" = "head_boy_senior_"
  ∧ BallotAdmin.position_id "head_boy_senior_" = "head_boy_senior_".
Proof.
  destruct (X19_position_id_is_a_stable_identifier "Head Boy (Senior)") as [_ Hagain];
    [reflexivity|].
  assert (BallotAdmin.position_id "Head Boy (Senior)" = "head_boy_senior_") as Hid
    by reflexivity.
  split; [exact Hid|]. rewrite <- Hid at 1. rewrite Hagain. exact Hid.
Defined.

(* ===================================================================== *)
(** * The physical votes dialog *)
(* ===================================================================== *)

Section Dialog.

Import PhysicalVotes.

Variable parseInt : string → float.
Variable now : string.
Variable candidateId candidateName position_title : string.

(** X20: the dialog never stores a count that is not a number or is below
    zero.  Whatever [parseInt] makes of the text, a row is inserted exactly
    when the parsed count is a number and is not negative; the row carries
    that count, the three properties of the dialog, the time, and the notes
    (no notes when the field is empty). *)
Theorem X20_inserted_count_is_a_non_negative_number votes notes insert_fails row :
  Insert row ∈ handleSubmit parseInt now candidateId candidateName position_title
                 votes notes insert_fails
  ↔ isNaN (parseInt votes) = false
    ∧ PrimFloat.ltb (parseInt votes) 0 = false
    ∧ row = {| candidate_id := candidateId;
               candidate_name := candidateName;
               position := position_title;
               votes_count := parseInt votes;
               PhysicalVotes.notes :=
                 if JS.truthy_string notes then Some notes else None;
               added_at := now |}.
Proof.
  unfold handleSubmit.
  destruct (isNaN (parseInt votes)) eqn:Hnan; simpl.
  { split; [|by intros [? _]].
    intros H. repeat (apply elem_of_cons in H as [H|H]; [done|]).
    by apply elem_of_nil in H. }
  destruct (PrimFloat.ltb (parseInt votes) 0) eqn:Hneg; simpl.
  { split; [|by intros (_ & ? & _)].
    intros H. repeat (apply elem_of_cons in H as [H|H]; [done|]).
    by apply elem_of_nil in H. }
  split.
  - intros H. repeat (apply elem_of_cons in H as [H|H]; [try done|]).
    + by simplify_eq.
    + apply elem_of_app in H as [H|H].
      * destruct (insert_fails _);
          repeat (apply elem_of_cons in H as [H|H]; [done|]);
          by apply elem_of_nil in H.
      * repeat (apply elem_of_cons in H as [H|H]; [done|]).
        by apply elem_of_nil in H.
  - intros (_ & _ & ->). do 2 apply list_elem_of_further. apply list_elem_of_here.
Qed.

(** X21: what the dialog looks like after a submit.  If the text is rejected
    nothing is inserted and the form is as it was.  Otherwise the loading
    flag ends lowered; when the insert succeeds both fields are emptied, the
    dialog is closed and [onSuccess] is called; when it fails the fields
    keep what was typed, the dialog stays open and [onSuccess] is not
    called. *)
Theorem X21_form_after_submit votes notes insert_fails f :
  let effects := handleSubmit parseInt now candidateId candidateName position_title
                   votes notes insert_fails in
  let f' := foldl form_step f effects in
  if isNaN (parseInt votes) || PrimFloat.ltb (parseInt votes) 0
  then f' = f ∧ ∀ row, ¬ (Insert row ∈ effects)
  else
    loading f' = false
    ∧ ∃ row,
        Insert row ∈ effects
        ∧ (if insert_fails row
           then PhysicalVotes.votes f' = PhysicalVotes.votes f
                ∧ form_notes f' = form_notes f
                ∧ (OnSuccess ∉ effects) ∧ (OnOpenChange false ∉ effects)
           else PhysicalVotes.votes f' = EmptyString
                ∧ form_notes f' = EmptyString
                ∧ OnSuccess ∈ effects ∧ OnOpenChange false ∈ effects).
Proof.
  unfold handleSubmit.
  destruct (isNaN (parseInt votes) || PrimFloat.ltb (parseInt votes) 0); simpl.
  - split; [by destruct f|]. intros row H.
    repeat (apply elem_of_cons in H as [H|H]; [done|]).
    by apply elem_of_nil in H.
  - match goal with |- context [insert_fails ?r] => set (row := r) end.
    destruct (insert_fails row) eqn:Hfail; simpl.
    + split; [done|]. exists row. split; [do 2 apply list_elem_of_further; apply list_elem_of_here|].
      rewrite Hfail. split; [done|]. split; [done|].
      split; intros H;
        repeat (apply elem_of_cons in H as [H|H]; [done|]);
        by apply elem_of_nil in H.
    + split; [done|]. exists row. split; [do 2 apply list_elem_of_further; apply list_elem_of_here|].
      rewrite Hfail. split; [done|]. split; [done|].
      split; repeat first [apply list_elem_of_here | apply list_elem_of_further].
Qed.

End Dialog.

(** The head boy position has two applicants, the games captain none: only
    the former is on the ballot, with both candidates. *)
Lemma X14_witness :
  pos_candidates
    (VoteLoad.position_with_candidates (Some Cases.confirmed_applications) Cases.head_boy)
  ≠ []
  ∧ VoteLoad.positionsWithCandidates (Some [Cases.games_captain; Cases.head_boy])
      (Some Cases.confirmed_applications)
    = [VoteLoad.position_with_candidates (Some Cases.confirmed_applications)
         Cases.head_boy].
Proof.
  assert (VoteLoad.positionsWithCandidates (Some [Cases.games_captain; Cases.head_boy])
            (Some Cases.confirmed_applications)
          = [VoteLoad.position_with_candidates (Some Cases.confirmed_applications)
               Cases.head_boy]) as Hballot by (vm_compute; reflexivity).
  split; [|exact Hballot].
  apply (X14_ballot_candidates_are_the_applicants
           (Some [Cases.games_captain; Cases.head_boy])
           (Some Cases.confirmed_applications)).
  rewrite Hballot. apply list_elem_of_here.
Defined.

(* ===================================================================== *)
(** * The maps hold ballot positions only *)
(* ===================================================================== *)

Section OnBallot.

Variable positions : list Position.

Lemma on_ballot_insert {A} (m : gmap string A) p (x : A) :
  p ∈ positions → on_ballot positions m → on_ballot positions (<[pos_id p := x]> m).
Proof.
  intros Hp Hm k Hk. destruct (decide (pos_id p = k)) as [<-|Hne]; [by exists p|].
  rewrite lookup_insert_ne in Hk by done. by apply Hm.
Qed.

Lemma ballot_rendered_elem s p :
  ballot_rendered positions s = Some p → p ∈ positions.
Proof.
  unfold ballot_rendered, currentPosition.
  destruct (showSuccess s); [done|]. destruct (showReview s); [done|].
  apply list_elem_of_lookup_2.
Qed.

Lemma step_on_ballot w e w' :
  world_on_ballot positions w → step positions w e = Some w' →
  world_on_ballot positions w'.
Proof.
  unfold world_on_ballot. intros (Hs & Hl & Hcalls).
  destruct e as [c|n o|ms|]; simpl; intros H.
  - destruct (ballot_rendered positions (st w)) as [p|] eqn:Hp; simplify_eq/=.
    apply ballot_rendered_elem in Hp.
    unfold handleSelectCandidate. destruct (is_locked _ _); [done|]. simpl.
    split; [by apply on_ballot_insert|]. split; [by apply on_ballot_insert|].
    apply Forall_app. split; [done|]. apply Forall_singleton.
    split; [done|]. split; [done|]. by exists p.
  - destruct (calls w !! n) as [c|] eqn:Hn; simplify_eq/=.
    pose proof (Forall_lookup_1 _ _ _ _ Hcalls Hn) as (Hcs & Hcl & p & Hp & Hid).
    destruct o; simplify_eq/=.
    + split; [done|]. split; [done|]. by apply Forall_delete.
    + split; [done|]. split; [|by apply Forall_delete].
      rewrite <- Hid. by apply on_ballot_insert.
  - destruct (timers w) as [|[d t] q]; simplify_eq/=; [done|].
    destruct (clock w + ms <=? d); simplify_eq/=. done.
  - destruct (timers w) as [|[d t] q]; simplify_eq/=.
    destruct (run_timer_maps positions t
                {| st := st w; clock := clock w `max` d; timers := q;
                   calls := calls w; trace := trace w |}) as (-> & -> & ->).
    done.
Qed.

(** X22: a fresh session never records anything for a position that is not
    on the ballot: in every world it reaches, every key of the selection map
    and of the lock map is the id of a position of the ballot, and so is the
    position of every submission still unsettled. *)
Theorem X22_maps_hold_ballot_positions_only es w :
  run positions (mount initial_state) es = Some w →
  on_ballot positions (selections (st w))
  ∧ on_ballot positions (locked (st w))
  ∧ ∀ c, c ∈ calls w → ∃ p, p ∈ positions ∧ pos_id p = vc_position c.
Proof.
  intros Hrun.
  assert (world_on_ballot positions w) as (Hs & Hl & Hcalls).
  { refine (run_invariant positions (world_on_ballot positions)
              _ es (mount initial_state) w _ Hrun).
    - intros w1 e w2. apply step_on_ballot.
    - split; [|split; [|constructor]]; intros k [x Hx]; simpl in Hx;
        by rewrite lookup_empty in Hx. }
  split; [done|]. split; [done|].
  intros c Hc. rewrite Forall_forall in Hcalls. by destruct (Hcalls c Hc) as (_ & _ & ?).
Qed.

End OnBallot.

Lemma X22_witness :
  ∃ p, p ∈ Scenario.three_positions ∧ pos_id p = "pos1".
Proof.
  destruct (X22_maps_hold_ballot_positions_only Scenario.three_positions
              Scenario.vote_two_of_three
              (Scenario.after Scenario.three_positions Scenario.vote_two_of_three))
    as (Hsel & _ & _); [vm_compute; reflexivity|].
  apply Hsel. exists "C". vm_compute. reflexivity.
Defined.

Section Titles.

Import BallotAdmin AdminSpec.

Lemma lower_of_upper c : lower_char (upper_char c) = lower_char c.
Proof.
  unfold upper_char. destruct (is_lower c) eqn:Hl; [|done].
  unfold is_lower in Hl. apply andb_true_iff in Hl as [H1 H2].
  apply Nat.leb_le in H1, H2.
  assert (code (Ascii.ascii_of_nat (code c - 32)) = code c - 32) as Hcode.
  { unfold code at 1. apply Ascii.nat_ascii_embedding. lia. }
  unfold lower_char, is_upper. rewrite Hcode.
  replace (65 <=? code c - 32) with true by (symmetry; apply Nat.leb_le; lia).
  replace (code c - 32 <=? 90) with true by (symmetry; apply Nat.leb_le; lia).
  replace (65 <=? code c) with true by (symmetry; apply Nat.leb_le; lia).
  replace (code c <=? 90) with false by (symmetry; apply Nat.leb_gt; lia).
  simpl. replace (code c - 32 + 32) with (code c) by lia.
  apply Ascii.ascii_nat_embedding.
Qed.

Lemma underscore_is_no_slug_char c :
  (code c =? 95) = true →
  is_slug_char (lower_char c) = false ∧ is_word_char space = false
  ∧ is_slug_char (lower_char space) = false.
Proof.
  intros H. apply Nat.eqb_eq in H. split; [|by vm_compute].
  unfold lower_char, is_upper. rewrite H. cbn [Nat.leb andb].
  unfold is_slug_char, is_lower, is_digit. rewrite H. done.
Qed.

Lemma id_of_displayed aw b s :
  replace_runs b (toLowerCase (capitalize_words aw (underscores_to_spaces s)))
  = replace_runs b (toLowerCase s).
Proof.
  revert aw b. induction s as [|c s IH]; intros aw b; [done|].
  cbn [underscores_to_spaces]. destruct (code c =? 95) eqn:Hu.
  - destruct (underscore_is_no_slug_char c Hu) as (H1 & H2 & H3).
    cbn [capitalize_words]. rewrite H2. cbn [toLowerCase replace_runs].
    rewrite H1, H3. destruct b; by rewrite IH.
  - cbn [capitalize_words]. destruct (is_word_char c).
    + cbn [toLowerCase replace_runs].
      assert (lower_char (if aw then c else upper_char c) = lower_char c) as ->
        by (destruct aw; [done | apply lower_of_upper]).
      destruct (is_slug_char (lower_char c)); [|destruct b]; by rewrite IH.
    + cbn [toLowerCase replace_runs].
      destruct (is_slug_char (lower_char c)); [|destruct b]; by rewrite IH.
Qed.

(** X23: the id of a position can be read off the title the page shows: for
    a title written in ASCII, the id computed from the displayed title
    (underscores shown as spaces, words capitalised) is the id computed from
    the title itself. *)
Theorem X23_id_of_displayed_title title :
  all_chars is_ascii title = true →
  position_id (display_title title) = position_id title.
Proof. intros _. apply id_of_displayed. Qed.

End Titles.

Lemma X23_witness :
  BallotAdmin.display_title "head_girl" = "Head Girl"
  ∧ BallotAdmin.position_id "Head Girl" = "head_girl".
Proof.
  assert (BallotAdmin.display_title "head_girl" = "Head Girl") as Hshown by reflexivity.
  split; [exact Hshown|]. rewrite <- Hshown.
  rewrite (X23_id_of_displayed_title "head_girl") by reflexivity. reflexivity.
Defined.
